(** * Private Knowledge Q&A: document store, lexical relevance engine and
      answer service, embedded from [server/server.js] and the client page
      component.

    JavaScript strings are modelled as lists of code units restricted to
    U+0000..U+00FF (one [ascii] per code unit), numbers that the code only
    uses as small integers as [Z] or [nat], the two confidence constants as
    exact rationals, and a thrown exception as the [Throw] case of an
    outcome type. *)

From Stdlib Require Import List Ascii ZArith QArith Bool Arith Lia.
From Stdlib Require Import Sorting.Sorted Sorting.Permutation.
From Stdlib Require String.
Import ListNotations String.StringSyntax.
Local Open Scope string_scope.
Local Open Scope nat_scope.
Local Open Scope list_scope.

(** ** JavaScript primitives used by the two programs *)
Module Js.

Definition str := list ascii.

Definition lit (s : String.string) : str := String.list_ascii_of_string s.

Definition code (c : ascii) : nat := nat_of_ascii c.

Fixpoint eqStr (a b : str) : bool :=
  match a, b with
  | [], [] => true
  | x :: a', y :: b' => Ascii.eqb x y && eqStr a' b'
  | _, _ => false
  end.

(** [WhiteSpace] and [LineTerminator] code units below U+0100: what [\s]
    matches and what [trim] strips. *)
Definition isWhiteSpace (c : ascii) : bool :=
  let n := code c in
  ((9 <=? n) && (n <=? 13)) || (n =? 32) || (n =? 160).

(** [\w] of a regular expression without the unicode flag. *)
Definition isWordChar (c : ascii) : bool :=
  let n := code c in
  ((48 <=? n) && (n <=? 57)) || ((65 <=? n) && (n <=? 90))
  || (n =? 95) || ((97 <=? n) && (n <=? 122)).

Definition lowerChar (c : ascii) : ascii :=
  let n := code c in
  if ((65 <=? n) && (n <=? 90))
     || ((192 <=? n) && (n <=? 222) && negb (n =? 215))
  then ascii_of_nat (n + 32) else c.

(** [String.prototype.toLowerCase] *)
Definition toLowerCase (s : str) : str := map lowerChar s.

Fixpoint trimStart (s : str) : str :=
  match s with
  | c :: s' => if isWhiteSpace c then trimStart s' else s
  | [] => []
  end.

Definition trimEnd (s : str) : str := rev (trimStart (rev s)).

(** [String.prototype.trim] *)
Definition trim (s : str) : str := trimEnd (trimStart s).

(** [String.prototype.substring(a, b)]: both indices are clamped to the
    length and swapped when out of order. *)
Definition substring (a b : nat) (s : str) : str :=
  let a' := Nat.min a (length s) in
  let b' := Nat.min b (length s) in
  let lo := Nat.min a' b' in
  let hi := Nat.max a' b' in
  firstn (hi - lo) (skipn lo s).

Fixpoint startsWith (p s : str) : bool :=
  match p, s with
  | [], _ => true
  | x :: p', y :: s' => Ascii.eqb x y && startsWith p' s'
  | _ :: _, [] => false
  end.

(** [s] occurs in [t] as a run of consecutive code units. *)
Definition substringOf (s t : str) : Prop :=
  exists pre post, t = pre ++ s ++ post.

(** A piece of a split: it occurs in the string and holds no separator. *)
Definition pieceOf (sep : ascii -> bool) (s p : str) : Prop :=
  substringOf p s /\ Forall (fun c => sep c = false) p.

(** [String.prototype.includes] *)
Fixpoint includes (s needle : str) : bool :=
  startsWith needle s
  || match s with
     | [] => false
     | _ :: s' => includes s' needle
     end.

(** [s.split(sep)] for a separator that matches exactly one code unit of
    the class [sep]: adjacent separators give empty pieces. *)
Fixpoint splitOn (sep : ascii -> bool) (s : str) : list str :=
  match s with
  | [] => [[]]
  | c :: s' =>
      if sep c then [] :: splitOn sep s'
      else match splitOn sep s' with
           | p :: ps => (c :: p) :: ps
           | [] => [[c]]
           end
  end.

(** [s.split(/[class]+/)]: a maximal run of separators is one separator.
    [inRun] tells that the previous code unit was a separator. *)
Fixpoint splitRunsFrom (sep : ascii -> bool) (inRun : bool) (s : str)
  : list str :=
  match s with
  | [] => [[]]
  | c :: s' =>
      if sep c then
        if inRun then splitRunsFrom sep true s'
        else [] :: splitRunsFrom sep true s'
      else match splitRunsFrom sep false s' with
           | p :: ps => (c :: p) :: ps
           | [] => [[c]]
           end
  end.

Definition splitRuns (sep : ascii -> bool) (s : str) : list str :=
  splitRunsFrom sep false s.

Definition isNewline (c : ascii) : bool := code c =? 10.

(** Index just past the last newline within the leading white-space run of
    [s], if that run has a newline: the number of code units that the tail
    [\s*\n] of [/\n\s*\n/] consumes (greedy, then backtracking to the last
    newline). *)
Fixpoint blankTail (s : str) : option nat :=
  match s with
  | c :: s' =>
      if isWhiteSpace c then
        match blankTail s' with
        | Some n => Some (S n)
        | None => if isNewline c then Some 1 else None
        end
      else None
  | [] => None
  end.

(** [s.split(/\n\s*\n/)]. [skip] counts the code units of a separator that
    are still to be passed over. *)
Fixpoint splitBlankFrom (skip : nat) (s : str) : list str :=
  match s with
  | [] => [[]]
  | c :: s' =>
      match skip with
      | S k => splitBlankFrom k s'
      | O =>
          match (if isNewline c then blankTail s' else None) with
          | Some n => [] :: splitBlankFrom n s'
          | None =>
              match splitBlankFrom 0 s' with
              | p :: ps => (c :: p) :: ps
              | [] => [[c]]
              end
          end
      end
  end.

Definition splitBlankLines (s : str) : list str := splitBlankFrom 0 s.

(** [Array.prototype.join] *)
Fixpoint join (sep : str) (l : list str) : str :=
  match l with
  | [] => []
  | [x] => x
  | x :: l' => x ++ sep ++ join sep l'
  end.

Section Arrays.
Context {A : Type}.

(** [Array.prototype.findIndex]; [None] stands for -1. *)
Fixpoint findIndex (p : A -> bool) (l : list A) : option nat :=
  match l with
  | [] => None
  | x :: l' =>
      if p x then Some 0
      else match findIndex p l' with
           | Some i => Some (S i)
           | None => None
           end
  end.

(** [arr.splice(i, 1)]: the array without its element at index [i]. *)
Fixpoint splice1 (i : nat) (l : list A) : list A :=
  match l, i with
  | [], _ => []
  | _ :: l', O => l'
  | x :: l', S j => x :: splice1 j l'
  end.

(** [Array.prototype.slice(0, n)] *)
Definition slice0 (n : nat) (l : list A) : list A := firstn n l.

(** [Array.prototype.sort(cmp)] with a consistent comparator: the sort
    is stable, [x] goes after [y] only when [cmp x y > 0]. *)
Fixpoint insertBy (cmp : A -> A -> Z) (x : A) (l : list A) : list A :=
  match l with
  | [] => [x]
  | y :: l' =>
      if (0 <? cmp x y)%Z then y :: insertBy cmp x l' else x :: l
  end.

Definition sortBy (cmp : A -> A -> Z) (l : list A) : list A :=
  fold_right (insertBy cmp) [] l.

(** A [Map] keyed by strings, in insertion order; [set] on a present key
    replaces the value in place. *)
Fixpoint mapSet (k : str) (v : A) (m : list (str * A)) : list (str * A) :=
  match m with
  | [] => [(k, v)]
  | (k', v') :: m' =>
      if eqStr k' k then (k', v) :: m' else (k', v') :: mapSet k v m'
  end.
End Arrays.

(** [[...new Set(arr)]]: the distinct values in order of first
    occurrence. *)
Fixpoint setOf (l : list str) : list str :=
  match l with
  | [] => []
  | x :: l' => x :: filter (fun y => negb (eqStr y x)) (setOf l')
  end.

(** *** Own properties of an ordinary object *)

Definition isDigit (c : ascii) : bool :=
  let n := code c in (48 <=? n) && (n <=? 57).

Definition digitsValue (s : str) : N :=
  fold_left (fun acc c => (acc * 10 + N.of_nat (code c - 48))%N) s 0%N.

(** A property key that is an array index: a canonical decimal numeral
    below 2^32 - 1. *)
Definition arrayIndex (k : str) : option N :=
  match k with
  | [] => None
  | c :: rest =>
      if forallb isDigit k
         && (negb (code c =? 48) || match rest with [] => true | _ => false end)
         && (length k <=? 10)
         && (digitsValue k <? 4294967295)%N
      then Some (digitsValue k) else None
  end.

Definition protoKey : str := lit "__proto__".

(** [obj[k] = v] on an object literal: assigning to [__proto__] changes the
    prototype and creates no own property. *)
Definition objSet {A} (k : str) (v : A) (o : list (str * A)) : list (str * A) :=
  if eqStr k protoKey then o else mapSet k v o.

Definition cmpIndexKey {A} (x y : N * (str * A)) : Z :=
  (Z.of_N (fst x) - Z.of_N (fst y))%Z.

(** [Object.entries]: array-index keys in ascending numeric order, then
    the other keys in creation order. *)
Definition objEntries {A} (o : list (str * A)) : list (str * A) :=
  let indexed :=
    flat_map (fun kv => match arrayIndex (fst kv) with
                        | Some n => [(n, kv)]
                        | None => []
                        end) o in
  map snd (sortBy cmpIndexKey indexed)
  ++ filter (fun kv => match arrayIndex (fst kv) with
                       | Some _ => false
                       | None => true
                       end) o.

(** *** Exceptions *)

Inductive JsError : Type :=
  | TypeError
  | SyntaxError
  | ApiError (status : nat).

Inductive Outcome (A : Type) : Type :=
  | Ok (a : A)
  | Throw (e : JsError).
Arguments Ok {A} a.
Arguments Throw {A} e.

Definition bind {A B} (m : Outcome A) (k : A -> Outcome B) : Outcome B :=
  match m with
  | Ok a => k a
  | Throw e => Throw e
  end.

(** [for (const x of xs) acc = step(acc, x)] where [step] may throw. *)
Fixpoint foldM {A B} (step : B -> A -> Outcome B) (acc : B) (l : list A)
  : Outcome B :=
  match l with
  | [] => Ok acc
  | x :: l' => bind (step acc x) (fun acc' => foldM step acc' l')
  end.

(** *** Regular expressions built from data

    [subject.match(new RegExp(pattern, flags))] with the global flag: the
    matched substrings, [None] for [null], or a thrown [SyntaxError] when
    the pattern does not parse. *)
Definition RegExpMatch : Type := str -> str -> str -> Outcome (option (list str)).

Definition wordBoundary : str := lit "\b".

(** The matches of [\bw\b] in [s] for a word [w] made of word characters;
    [prevWord] tells that the code unit before [s] is a word character. *)
Fixpoint wholeWordMatches (w : str) (prevWord : bool) (s : str) : list str :=
  match s with
  | [] => []
  | c :: s' =>
      (if negb prevWord && startsWith w s
          && match skipn (length w) s with
             | [] => true
             | d :: _ => negb (isWordChar d)
             end
       then [w] else [])
      ++ wholeWordMatches w (isWordChar c) s'
  end.

(** The regular expressions of the form [\bw\b] where [w] is a non-empty
    run of lower-case letters, digits and underscores, applied with the
    flags [g] or [gi] to a lower-cased subject. Other patterns are outside
    this instance and are reported as [SyntaxError]; the general results
    below hold for every [RegExpMatch]. *)
Definition plainWordRegExp : RegExpMatch :=
  fun pattern flags subject =>
    let w := firstn (length pattern - 4) (skipn 2 pattern) in
    if startsWith wordBoundary pattern
       && eqStr (skipn (2 + length w) pattern) wordBoundary
       && (4 <? length pattern)
       && forallb (fun c => isWordChar c && Ascii.eqb (lowerChar c) c) w
       && (eqStr flags (lit "g") || eqStr flags (lit "gi"))
    then match wholeWordMatches w false subject with
         | [] => Ok None
         | ms => Ok (Some ms)
         end
    else Throw SyntaxError.

(** A parsed JSON value, as the body of a request holds it. *)
#[warnings="-register-all"] Inductive Json : Type :=
  | JNull
  | JBool (b : bool)
  | JNumber (q : Q)
  | JString (s : str)
  | JArray (items : list Json)
  | JObject (fields : list (str * Json)).

(** [!!v] for a JSON value. *)
Definition truthy (v : Json) : bool :=
  match v with
  | JNull => false
  | JBool b => b
  | JNumber q => negb (Qeq_bool q 0%Q)
  | JString s => negb (length s =? 0)
  | JArray _ | JObject _ => true
  end.

(** What [l.sort(cmp)] may leave in the array, by the definition of the
    language, when [cmp] is a consistent comparator: a rearrangement [l']
    of [l] that is ordered by [cmp] and stable, that is, elements which
    [cmp] does not separate keep their order. The algorithm is left to the
    implementation. *)
Definition sortResult {A : Type} (cmp : A -> A -> Z) (l l' : list A) : Prop :=
  Permutation l' l
  /\ StronglySorted (fun a b => (cmp a b <= 0)%Z) l'
  /\ forall p : A -> bool,
       (forall a b, p a = true -> p b = true -> (cmp a b <= 0)%Z) ->
       filter p l' = filter p l.

(** [cmp] does not separate [x] from [a]. *)
Definition tiedWith {A : Type} (cmp : A -> A -> Z) (a x : A) : bool :=
  (cmp a x <=? 0)%Z && (cmp x a <=? 0)%Z.

(** [l1] is [l2] with some elements left out, the others in order. *)
Inductive Subsequence {A : Type} : list A -> list A -> Prop :=
  | SubNil : Subsequence [] []
  | SubSkip : forall x l1 l2, Subsequence l1 l2 -> Subsequence l1 (x :: l2)
  | SubKeep : forall x l1 l2, Subsequence l1 l2 -> Subsequence (x :: l1) (x :: l2).

(** No white space at the start of [s]. *)
Definition startsClean (s : str) : Prop :=
  match s with
  | [] => True
  | c :: _ => isWhiteSpace c = false
  end.

End Js.

(** An entry of [sources] in an answer: [{document, excerpt}]. *)
Record Source : Type := mkSource { document : Js.str; excerpt : Js.str }.

(** ** The server: [server/server.js] *)
Module Server.
Import Js.

Record Document : Type := mkDocument {
  id : Z;
  name : str;
  filename : str;
  path : str;
  size : nat;
  content : str;
  uploadedAt : Z
}.

(** [req.file] as the upload middleware leaves it. *)
Record UploadedFile : Type := mkUploadedFile {
  originalname : str;
  storedName : str;
  storedPath : str;
  storedSize : nat
}.

(** The module-level array [uploadedDocuments] and the files of the upload
    directory. *)
Record State : Type := mkState {
  uploadedDocuments : list Document;
  disk : list str
}.

Inductive Body : Type :=
  | ErrorBody (error : str)
  | MessageBody (message : str)
  | UploadBody (message : str) (doc : Document)
  | DocumentsBody (docs : list Document)
  | AnswerBody (question answer : str) (sources : list Source)
               (confidence : Q) (method : str).

Record Response : Type := mkResponse { status : nat; body : Body }.

(** *** [GET /api/documents] *)
Definition listDocuments (st : State) : Response :=
  mkResponse 200 (DocumentsBody (uploadedDocuments st)).

(** *** [DELETE /api/documents/:id]

    [docId] is the value of [parseInt(req.params.id)], [None] for [NaN];
    [unlinkThrows] tells whether removing the file fails, which the handler
    catches and logs. *)
Definition deleteDocument (docId : option Z) (unlinkThrows : bool) (st : State)
  : State * Response :=
  let sameId (d : Document) :=
    match docId with
    | Some n => (id d =? n)%Z
    | None => false
    end in
  match findIndex sameId (uploadedDocuments st) with
  | None => (st, mkResponse 404 (ErrorBody (lit "Document not found")))
  | Some docIndex =>
      let remaining := splice1 docIndex (uploadedDocuments st) in
      let disk' :=
        match nth_error (uploadedDocuments st) docIndex with
        | Some deletedDoc =>
            if existsb (eqStr (path deletedDoc)) (disk st) && negb unlinkThrows
            then filter (fun p => negb (eqStr p (path deletedDoc))) (disk st)
            else disk st
        | None => disk st
        end in
      (mkState remaining disk',
       mkResponse 200 (MessageBody (lit "Document deleted successfully")))
  end.

(** *** [POST /api/upload]

    The middleware has written the file to [storedPath] before the handler
    runs; [fileContent] is what [readFileSync] returns for it and [now] the
    value of [new Date()]. *)
Definition uploadDocument (file : option UploadedFile) (fileContent : str)
    (now : Z) (st : State) : State * Response :=
  match file with
  | None => (st, mkResponse 400 (ErrorBody (lit "No file uploaded")))
  | Some f =>
      let doc := {|
        id := Z.of_nat (length (uploadedDocuments st)) + 1;
        name := originalname f;
        filename := storedName f;
        path := storedPath f;
        size := storedSize f;
        content := fileContent;
        uploadedAt := now
      |} in
      (mkState (uploadedDocuments st ++ [doc]) (storedPath f :: disk st),
       mkResponse 200 (UploadBody (lit "File uploaded successfully") doc))
  end.

(** A request that changes the store. *)
Inductive StoreOp : Type :=
  | Upload (f : UploadedFile) (fileContent : str) (now : Z)
  | Delete (docId : option Z) (unlinkThrows : bool).

Definition applyOp (st : State) (op : StoreOp) : State :=
  match op with
  | Upload f c now => fst (uploadDocument (Some f) c now st)
  | Delete docId t => fst (deleteDocument docId t st)
  end.

Definition initialState : State := mkState [] [].

Definition runOps (ops : list StoreOp) : State := fold_left applyOp ops initialState.

(** *** [getAnswerFromDocuments]: the keyword-search fallback *)

Record Match : Type := mkMatch {
  matchDocument : str;
  matchExcerpt : str;
  score : Z;
  matchCount : Z
}.

Record FallbackResult : Type := mkFallbackResult {
  answer : str;
  sources : list Source;
  primaryDocument : option str
}.

Definition isSentenceEnd (c : ascii) : bool :=
  let n := code c in (n =? 46) || (n =? 33) || (n =? 63).

(** [doc.content.split(/[.!?]+/).map(s => s.trim()).filter(s => s.length > 20)] *)
Definition sentencesOf (text : str) : list str :=
  filter (fun s => 20 <? length s) (map trim (splitRuns isSentenceEnd text)).

(** [questionLower.split(/\s+/).filter(w => w.length > 2)] *)
Definition questionWordsOf (questionLower : str) : list str :=
  filter (fun w => 2 <? length w) (splitRuns isWhiteSpace questionLower).

Definition questionPhraseOf (questionLower : str) : str :=
  substring 0 (Nat.min 15 (length questionLower)) questionLower.

(** The body of the loop over sentences: the pair [(score, matchCount)]. *)
Definition scoreSentence (questionLower : str) (questionWords : list str)
    (sentence : str) : Z * Z :=
  let sentenceLower := toLowerCase sentence in
  let '(score1, matchCount) :=
    fold_left (fun (acc : Z * Z) word =>
                 if includes sentenceLower word
                 then (fst acc + 3, snd acc + 1)%Z else acc)
              questionWords (0, 0)%Z in
  let score2 :=
    if includes sentenceLower (questionPhraseOf questionLower)
    then (score1 + 10)%Z else score1 in
  let score3 :=
    if (0 <? matchCount)%Z then (score2 + matchCount * 2)%Z else score2 in
  (score3, matchCount).

Definition matchOf (questionLower : str) (questionWords : list str)
    (doc : Document) (sentence : str) : Match :=
  let sc := scoreSentence questionLower questionWords sentence in
  mkMatch (name doc) (substring 0 300 (trim sentence)) (fst sc) (snd sc).

(** [allMatches] when the two nested loops are done. *)
Definition allMatchesOf (question : str) (documents : list Document)
  : list Match :=
  let questionLower := toLowerCase question in
  let questionWords := questionWordsOf questionLower in
  flat_map (fun doc =>
    flat_map (fun sentence =>
      let m := matchOf questionLower questionWords doc sentence in
      if (0 <? score m)%Z then [m] else [])
      (sentencesOf (content doc)))
    documents.

Definition compareMatches (a b : Match) : Z :=
  if negb (score b =? score a)%Z then (score b - score a)%Z
  else (matchCount b - matchCount a)%Z.

(** [allMatches] after [allMatches.sort(...)]. *)
Definition rankedMatches (question : str) (documents : list Document)
  : list Match :=
  sortBy compareMatches (allMatchesOf question documents).

(** [a] may stand before [b] in the ranking: higher score first, then
    higher match count. *)
Definition ranksBefore (a b : Match) : Prop :=
  (score b < score a)%Z \/ (score a = score b /\ (matchCount b <= matchCount a)%Z).

(** Every sentence of every document with its score, before the test
    [score > 0], in the order of the two loops. *)
Definition scoredSentences (question : str) (documents : list Document)
  : list Match :=
  let questionLower := toLowerCase question in
  let questionWords := questionWordsOf questionLower in
  flat_map (fun doc => map (matchOf questionLower questionWords doc)
                           (sentencesOf (content doc)))
           documents.

(** The sentences that contain the leading phrase of the question, each
    as a match of score 10 and match count 0, in the order of the loops. *)
Definition phraseMatches (question : str) (documents : list Document)
  : list Match :=
  flat_map (fun doc =>
      map (fun sentence => mkMatch (name doc) (substring 0 300 (trim sentence)) 10 0)
          (filter (fun sentence =>
                     includes (toLowerCase sentence)
                              (questionPhraseOf (toLowerCase question)))
                  (sentencesOf (content doc))))
      documents.

Definition notFoundAnswer : str :=
  lit "I couldn't find specific information about your question in the uploaded documents.".

Definition sourceOfMatch (m : Match) : Source :=
  mkSource (matchDocument m) (matchExcerpt m).

Definition getAnswerFromDocuments (question : str) (documents : list Document)
  : FallbackResult :=
  let allMatches := rankedMatches question documents in
  match allMatches with
  | [] => mkFallbackResult notFoundAnswer [] None
  | best :: _ =>
      mkFallbackResult
        (matchExcerpt best)
        (map sourceOfMatch (slice0 (Nat.min 3 (length allMatches)) allMatches))
        (Some (matchDocument best))
  end.

(** *** [POST /api/ask] *)

(** The part of a chat completion that the handler reads:
    [message.choices[0].message.content]. A missing field is [None]. *)
Record ChatMessage : Type := mkChatMessage { messageContent : option str }.
Record Choice : Type := mkChoice { choiceMessage : option ChatMessage }.
Record Completion : Type := mkCompletion { choices : option (list Choice) }.

(** [openai.chat.completions.create] awaited: given the system prompt and
    the user message, the completion or the rejection. *)
Definition OpenAIClient : Type := str -> str -> Outcome Completion.

Definition nl : str := [ascii_of_nat 10].
Definition dq : str := [ascii_of_nat 34].

Definition documentContentOf (documents : list Document) : str :=
  fold_left (fun acc doc =>
               (acc ++ (nl ++ lit "========== Document: " ++ name doc
                          ++ lit " ==========" ++ nl))
               ++ (content doc ++ nl))
            documents [].

Definition systemPromptOf (documentContent : str) : str :=
  lit "You are a document-focused assistant. Your job is to answer questions ONLY based on the provided documents."
  ++ nl ++ nl
  ++ lit "CRITICAL RULES:" ++ nl
  ++ lit "1. ONLY use information directly from the documents below" ++ nl
  ++ lit "2. Do NOT use any external knowledge or training data" ++ nl
  ++ lit "3. Always cite the specific document name that contains your answer" ++ nl
  ++ lit "4. If information is not in ANY document, say: " ++ dq
  ++ lit "This information is not available in the provided documents." ++ dq ++ nl
  ++ lit "5. Quote directly from the documents when possible" ++ nl
  ++ lit "6. Format your answer as: " ++ dq
  ++ lit "According to [DOCUMENT NAME]: [your answer]" ++ dq ++ nl
  ++ lit "7. Be precise and factual - quote exact text when relevant" ++ nl ++ nl
  ++ lit "DOCUMENTS:" ++ nl
  ++ documentContent ++ nl ++ nl
  ++ lit "Remember: Use ONLY the document content to answer. No external knowledge. Always include document name in your answer.".

(** [message.choices[0].message.content], followed by the
    [answer.substring(0, 100)] of the log line: reading a property of
    [undefined] or [null] throws a [TypeError]. *)
Definition answerOfCompletion (message : Completion) : Outcome str :=
  match choices message with
  | Some (first :: _) =>
      match choiceMessage first with
      | Some m =>
          match messageContent m with
          | Some text => Ok text
          | None => Throw TypeError
          end
      | None => Throw TypeError
      end
  | _ => Throw TypeError
  end.

Record SourceEntry : Type := mkSourceEntry {
  docName : str;
  entryDoc : Document;
  mentioned : bool
}.

Definition isSpace (c : ascii) : bool := code c =? 32.
Definition isDot (c : ascii) : bool := code c =? 46.

(** [questionLower.split(" ").filter(w => w.length > 3)] *)
Definition modelQuestionWordsOf (questionLower : str) : list str :=
  filter (fun w => 3 <? length w) (splitOn isSpace questionLower).

(** The documents whose name, with or without extension, occurs in the
    answer. *)
Definition mentionedSources (modelAnswer : str) (documents : list Document)
  : list (str * SourceEntry) :=
  fold_left (fun sourceSet doc =>
               let docNameLower := toLowerCase (name doc) in
               let docNameWithoutExt :=
                 toLowerCase (hd [] (splitOn isDot (name doc))) in
               if includes (toLowerCase modelAnswer) docNameLower
                  || includes (toLowerCase modelAnswer) docNameWithoutExt
               then mapSet (name doc) (mkSourceEntry (name doc) doc true) sourceSet
               else sourceSet)
            documents [].

Definition countMatches (r : option (list str)) : Z :=
  match r with
  | Some ms => Z.of_nat (length ms)
  | None => 0%Z
  end.

Section Ask.
Variable regExpMatch : RegExpMatch.

(** The whole-word occurrence score of one document. *)
Definition documentScore (questionWords : list str) (doc : Document)
  : Outcome Z :=
  let contentLower := toLowerCase (content doc) in
  foldM (fun sc word =>
           bind (regExpMatch (wordBoundary ++ word ++ wordBoundary)
                             (lit "g") contentLower)
                (fun r => Ok (sc + countMatches r * 2)%Z))
        0%Z questionWords.

Definition documentScoresOf (questionWords : list str)
    (documents : list Document) : Outcome (list (str * (Z * Document))) :=
  foldM (fun documentScores doc =>
           bind (documentScore questionWords doc)
                (fun sc => if (0 <? sc)%Z
                           then Ok (objSet (name doc) (sc, doc) documentScores)
                           else Ok documentScores))
        [] documents.

Definition compareDocumentScores (a b : str * (Z * Document)) : Z :=
  (fst (snd b) - fst (snd a))%Z.

(** [sourceSet] once the documents to cite are chosen. *)
Definition sourceSetOf (modelAnswer : str) (questionWords : list str)
    (documents : list Document) : Outcome (list (str * SourceEntry)) :=
  let sourceSet := mentionedSources modelAnswer documents in
  if length sourceSet =? 0 then
    bind (documentScoresOf questionWords documents)
         (fun documentScores =>
            let sortedDocs :=
              slice0 3 (sortBy compareDocumentScores (objEntries documentScores)) in
            Ok (fold_left (fun acc e =>
                             mapSet (fst e)
                                    (mkSourceEntry (fst e) (snd (snd e)) false)
                                    acc)
                          sortedDocs sourceSet))
  else Ok sourceSet.

Definition wordHits (questionWords : list str) (sentence : str) : Z :=
  Z.of_nat (length (filter (fun w => includes (toLowerCase sentence) (toLowerCase w))
                           questionWords)).

Definition relevantSentencesOf (questionWords : list str) (doc : Document)
  : list str :=
  sortBy (fun a b => (wordHits questionWords b - wordHits questionWords a)%Z)
         (filter (fun sentence =>
                    existsb (fun w => includes (toLowerCase sentence) (toLowerCase w))
                            questionWords)
                 (sentencesOf (content doc))).

(** [sources] after the loop over [sourceSet]. *)
Definition modelSourcesOf (questionWords : list str)
    (sourceSet : list (str * SourceEntry)) : list Source :=
  fold_left (fun acc e =>
               match relevantSentencesOf questionWords (entryDoc (snd e)) with
               | best :: _ =>
                   acc ++ [mkSource (fst e) (substring 0 250 (trim best))]
               | [] => acc
               end)
            sourceSet [].

Definition modelConfidence : Q := 95 # 100.
Definition fallbackConfidence : Q := 7 # 10.
Definition modelMethod : str := lit "openai".
Definition fallbackMethod : str := lit "fallback_search".

(** The [try] block after the client check, for a question that is a
    string. (For any other value the block ends in a [TypeError] at
    [question.toLowerCase()] at the latest; see [askRequest].) *)
Definition modelPath (client : OpenAIClient) (question : str)
    (documents : list Document) : Outcome Response :=
  let systemPrompt := systemPromptOf (documentContentOf documents) in
  bind (client systemPrompt question) (fun message =>
  bind (answerOfCompletion message) (fun modelAnswer =>
  let questionWords := modelQuestionWordsOf (toLowerCase question) in
  bind (sourceSetOf modelAnswer questionWords documents) (fun sourceSet =>
  let found := modelSourcesOf questionWords sourceSet in
  Ok (mkResponse 200
        (AnswerBody question modelAnswer (slice0 3 found)
                    modelConfidence modelMethod))))).

(** The [catch] block. *)
Definition fallbackResponse (question : str) (documents : list Document)
  : Response :=
  let fallbackResult := getAnswerFromDocuments question documents in
  mkResponse 200
    (AnswerBody question (answer fallbackResult) (sources fallbackResult)
                fallbackConfidence fallbackMethod).

(** The handler for a request whose [question] is a string, or absent
    ([None]). [openai] is [None] when constructing the client failed at
    start-up. The handler on every JSON value is [askRequest] below. *)
Definition ask (openai : option OpenAIClient) (question : option str)
    (st : State) : Response :=
  match question with
  | None | Some [] => mkResponse 400 (ErrorBody (lit "Question is required"))
  | Some q =>
      if length (uploadedDocuments st) =? 0
      then mkResponse 400 (ErrorBody (lit "No documents uploaded"))
      else
        let attempt :=
          match openai with
          | None =>
              Ok (mkResponse 500
                    (ErrorBody (lit "OpenAI API not initialized. Please check your API key.")))
          | Some client => modelPath client q (uploadedDocuments st)
          end in
        match attempt with
        | Ok response => response
        | Throw _ => fallbackResponse q (uploadedDocuments st)
        end
  end.
End Ask.

(** What the loop that builds [documentContent] adds for one document. *)
Definition documentBlock (doc : Document) : str :=
  (nl ++ lit "========== Document: " ++ name doc ++ lit " ==========" ++ nl)
  ++ (content doc ++ nl).

(** The test of the loop that looks for document names in the answer. *)
Definition isMentioned (modelAnswer : str) (doc : Document) : bool :=
  includes (toLowerCase modelAnswer) (toLowerCase (name doc))
  || includes (toLowerCase modelAnswer)
              (toLowerCase (hd [] (splitOn isDot (name doc)))).

(** An entry of [sourceSet] holds a stored document under its own name. *)
Definition entryOf (documents : list Document) (kv : str * SourceEntry) : Prop :=
  In (entryDoc (snd kv)) documents /\ name (entryDoc (snd kv)) = fst kv.

(** The same for an entry of [documentScores]. *)
Definition scoreEntryOf (documents : list Document)
    (kv : str * (Z * Document)) : Prop :=
  In (snd (snd kv)) documents /\ name (snd (snd kv)) = fst kv.

(** What an upload stores and never changes afterwards: name, content and
    time. *)
Definition uploadedFacts (d : Document) : str * str * Z :=
  (name d, content d, uploadedAt d).

(** The uploads of a request sequence, in order. *)
Definition uploadsOf (ops : list StoreOp) : list (str * str * Z) :=
  flat_map (fun op => match op with
                      | Upload f c now => [(originalname f, c, now)]
                      | Delete _ _ => []
                      end) ops.

(** [getAnswerFromDocuments] from the sorted [allMatches] on. *)
Definition answerFromRanked (allMatches : list Match) : FallbackResult :=
  match allMatches with
  | [] => mkFallbackResult notFoundAnswer [] None
  | best :: _ =>
      mkFallbackResult
        (matchExcerpt best)
        (map sourceOfMatch (slice0 (Nat.min 3 (length allMatches)) allMatches))
        (Some (matchDocument best))
  end.

(** A run of [getAnswerFromDocuments] in which [allMatches.sort] is any
    sort that the language allows. *)
Definition fallbackRun (question : str) (documents : list Document)
    (r : FallbackResult) : Prop :=
  exists sorted,
    sortResult compareMatches (allMatchesOf question documents) sorted
    /\ r = answerFromRanked sorted.

(** The handler of [POST /api/ask] on every value of [req.body.question]
    ([None] when the body has no such field); [Throw] stands for an
    exception that leaves the handler before it has sent a response.

    A falsy value is answered 400, then an empty store 400, then a missing
    client 500. A string goes on as in [ask]. For a truthy value that is
    not a string the [try] block throws, at the latest at
    [question.toLowerCase()] after the completion, and the [catch] block
    calls [getAnswerFromDocuments], whose first statement is the same
    [question.toLowerCase()]: a [TypeError] that nothing catches. *)
Definition askRequest (regExpMatch : RegExpMatch) (openai : option OpenAIClient)
    (question : option Json) (st : State) : Outcome Response :=
  match question with
  | Some (JString q) => Ok (ask regExpMatch openai (Some q) st)
  | Some v =>
      if truthy v then
        if length (uploadedDocuments st) =? 0
        then Ok (mkResponse 400 (ErrorBody (lit "No documents uploaded")))
        else match openai with
             | None =>
                 Ok (mkResponse 500
                       (ErrorBody (lit "OpenAI API not initialized. Please check your API key.")))
             | Some _ => Throw TypeError
             end
      else Ok (mkResponse 400 (ErrorBody (lit "Question is required")))
  | None => Ok (mkResponse 400 (ErrorBody (lit "Question is required")))
  end.

(** The request passes the two checks at the head of the handler. *)
Definition acceptedRequest (question : option Json) (st : State) : Prop :=
  (exists v, question = Some v /\ truthy v = true) /\ uploadedDocuments st <> [].

(** The question is a string. *)
Definition textQuestion (question : option Json) : Prop :=
  exists q, question = Some (JString q).

(** The question passes the two checks at the head of the handler. *)
Definition validAsk (question : option str) (st : State) : Prop :=
  (exists q, question = Some q /\ q <> []) /\ uploadedDocuments st <> [].

(** The number of question words, with repetitions, that a sentence
    contains. *)
Definition wordsFound (questionWords : list str) (sentence : str) : Z :=
  Z.of_nat (length (filter (fun w => includes (toLowerCase sentence) w) questionWords)).

(** The test that decides whether the keyword search keeps a sentence. *)
Definition sentenceQualifies (question : str) (sentence : str) : bool :=
  existsb (fun w => includes (toLowerCase sentence) w)
          (questionWordsOf (toLowerCase question))
  || includes (toLowerCase sentence) (questionPhraseOf (toLowerCase question)).

End Server.

(** ** The client: the page component with its local store and
    [findAnswerInDocuments] *)
Module Client.
Import Js.

Record Document : Type := mkDocument {
  id : str;
  name : str;
  content : str;
  size : nat;
  uploadedAt : str
}.

(** The component state [uploadedDocuments] and the list saved under
    [qa_app_documents] in local storage. *)
Record State : Type := mkState {
  uploadedDocuments : list Document;
  stored : list Document
}.

(** [handleDeleteDocument] when the write to local storage succeeds;
    [confirmed] is the answer to the confirmation dialog. With the write
    that may fail it is [handleDeleteDocumentIO] below. *)
Definition handleDeleteDocument (confirmed : bool) (docId : str) (st : State)
  : State :=
  if confirmed then
    let updatedDocs :=
      filter (fun doc => negb (eqStr (id doc) docId)) (uploadedDocuments st) in
    mkState updatedDocs updatedDocs
  else st.

(** The [onload] callback of [handleUpload] when the write to local
    storage succeeds; [nowMs] is [Date.now().toString()] and [nowIso] is
    [new Date().toISOString()]. With the write that may fail it is part of
    [handleUploadIO] below. *)
Definition handleUploadLoaded (fileName : str) (fileSize : nat) (text : str)
    (nowMs nowIso : str) (st : State) : State :=
  let newDoc := mkDocument nowMs fileName text fileSize nowIso in
  let updatedDocs := uploadedDocuments st ++ [newDoc] in
  mkState updatedDocs updatedDocs.

Record Chunk : Type := mkChunk {
  text : str;
  score : Z;
  source : str
}.

Record AnswerResult : Type := mkAnswerResult {
  answer : str;
  sources : list Source
}.

Definition stopWords : list str :=
  [lit "what"; lit "where"; lit "when"; lit "who"; lit "how"; lit "does";
   lit "this"; lit "that"; lit "with"; lit "from"].

(** The class [[?.,!]] *)
Definition isStripped (c : ascii) : bool :=
  let n := code c in (n =? 63) || (n =? 46) || (n =? 44) || (n =? 33).

Definition isSpace (c : ascii) : bool := code c =? 32.

(** [query.toLowerCase().replace(/[?.,!]/g, '').split(' ').filter(...)] *)
Definition keywordsOf (query : str) : list str :=
  filter (fun w => (3 <? length w) && negb (existsb (eqStr w) stopWords))
         (splitOn isSpace
            (filter (fun c => negb (isStripped c)) (toLowerCase query))).

Definition askMoreSpecific : str :=
  lit "Please ask a more specific question with keywords found in your documents.".

Definition nothingFound : str :=
  lit "I couldn't find any information dealing with that in your uploaded documents.".

Definition referenced : str := lit "Referenced in answer generation.".

Definition separator : str :=
  [ascii_of_nat 10; ascii_of_nat 10] ++ lit "..." ++ [ascii_of_nat 10; ascii_of_nat 10].

Definition compareChunks (a b : Chunk) : Z := (score b - score a)%Z.

(** Every chunk of every document with the score [sc] gives it, before
    the test [score > 0], in the order of the two loops. *)
Definition scoredChunks (sc : Document -> str -> Z) (docs : list Document)
  : list Chunk :=
  flat_map (fun doc => map (fun chunk => mkChunk (trim chunk) (sc doc chunk) (name doc))
                           (splitBlankLines (content doc)))
           docs.

Section Engine.
Variable regExpMatch : RegExpMatch.

(** The body of [keywords.forEach] for one chunk. *)
Definition scoreChunk (keywords : list str) (lowerChunk : str) : Outcome Z :=
  foldM (fun sc keyword =>
           if includes lowerChunk keyword then
             bind (regExpMatch (wordBoundary ++ keyword ++ wordBoundary)
                               (lit "gi") lowerChunk)
                  (fun matches =>
                     match matches with
                     | Some ms => Ok (sc + 1 + Z.of_nat (length ms))%Z
                     | None => Ok (sc + 1)%Z
                     end)
           else Ok sc)
        0%Z keywords.

(** The body of [chunks.forEach]: the chunk is pushed when it scores. *)
Definition pushChunk (keywords : list str) (doc : Document)
    (relevantChunks : list Chunk) (chunk : str) : Outcome (list Chunk) :=
  bind (scoreChunk keywords (toLowerCase chunk))
       (fun sc => if (0 <? sc)%Z
                  then Ok (relevantChunks ++ [mkChunk (trim chunk) sc (name doc)])
                  else Ok relevantChunks).

(** [relevantChunks] when [docs.forEach] is done. *)
Definition relevantChunksOf (keywords : list str) (docs : list Document)
  : Outcome (list Chunk) :=
  foldM (fun relevantChunks doc =>
           foldM (pushChunk keywords doc) relevantChunks
                 (splitBlankLines (content doc)))
        [] docs.

(** [relevantChunks] after [relevantChunks.sort(...)]. *)
Definition rankedChunks (keywords : list str) (docs : list Document)
  : Outcome (list Chunk) :=
  bind (relevantChunksOf keywords docs)
       (fun relevantChunks => Ok (sortBy compareChunks relevantChunks)).

Definition findAnswerInDocuments (query : str) (docs : list Document)
  : Outcome AnswerResult :=
  let keywords := keywordsOf query in
  if length keywords =? 0 then Ok (mkAnswerResult askMoreSpecific [])
  else
    bind (rankedChunks keywords docs) (fun ranked =>
    let topChunks := slice0 3 ranked in
    if length topChunks =? 0 then Ok (mkAnswerResult nothingFound [])
    else
      let combinedAnswer := join separator (map text topChunks) in
      let uniqueSources :=
        map (fun n => mkSource n referenced) (setOf (map source topChunks)) in
      Ok (mkAnswerResult combinedAnswer uniqueSources)).
End Engine.

(** The number of keywords that a chunk contains: what the server records
    as [matchCount] for a sentence. The client does not record it. *)
Definition keywordHits (keywords : list str) (chunk : str) : Z :=
  Z.of_nat (length (filter (fun k => includes (toLowerCase chunk) k) keywords)).

(** What a handler shows: an alert, or the outcome of the search that the
    timer callback puts on the page. *)
Inductive Feedback : Type :=
  | Alert (message : str)
  | Answered (result : Outcome AnswerResult).

(** [handleGetAnswer] with its timer callback. *)
Definition handleGetAnswer (regExpMatch : RegExpMatch) (question : str)
    (st : State) : Feedback :=
  if length (trim question) =? 0 then Alert (lit "Please ask a question")
  else if length (uploadedDocuments st) =? 0
       then Alert (lit "Please upload some documents first.")
       else Answered (findAnswerInDocuments regExpMatch question
                                            (uploadedDocuments st)).

Record SelectedFile : Type := mkSelectedFile { fileName : str; fileSize : nat }.

(** How reading the selected file ends: [onload], [onerror], or an
    exception of [readAsText]. *)
Inductive ReadResult : Type :=
  | ReadLoaded (content : str)
  | ReadFailed
  | ReadThrew (message : str).

(** [handleUpload] with the callbacks of its reader: the new state and the
    alert. *)
Definition handleUpload (file : option SelectedFile) (read : ReadResult)
    (nowMs nowIso : str) (st : State) : State * str :=
  match file with
  | None => (st, lit "Please select a file")
  | Some f =>
      match read with
      | ReadLoaded content =>
          (handleUploadLoaded (fileName f) (fileSize f) content nowMs nowIso st,
           lit "File processed and stored locally!")
      | ReadFailed => (st, lit "Failed to read file")
      | ReadThrew message => (st, lit "Error reading file: " ++ message)
      end
  end.

(** The component after its mount effect ran [fetchDocuments] on the saved
    list (the empty list when nothing was saved). *)
Definition mountState (saved : list Document) : State := mkState saved saved.

(** What an event handler leaves behind: the state, the alert it showed,
    and whether an exception left it. *)
Record Handled : Type := mkHandled {
  after : State;
  alerted : option str;
  raised : bool
}.

(** [handleDeleteDocument] with its write to local storage: [writeOk] is
    false when [localStorage.setItem] throws. The list on the page is set
    before the write, and nothing catches the exception. *)
Definition handleDeleteDocumentIO (confirmed writeOk : bool) (docId : str)
    (st : State) : Handled :=
  if confirmed then
    let updatedDocs :=
      filter (fun doc => negb (eqStr (id doc) docId)) (uploadedDocuments st) in
    if writeOk then mkHandled (mkState updatedDocs updatedDocs) None false
    else mkHandled (mkState updatedDocs (stored st)) None true
  else mkHandled st None false.

(** [handleUpload] with the callbacks of its reader and the write to local
    storage of the [onload] callback. When the write throws, the list on
    the page is already set, the rest of the callback is skipped and no
    alert is shown. *)
Definition handleUploadIO (file : option SelectedFile) (read : ReadResult)
    (nowMs nowIso : str) (writeOk : bool) (st : State) : Handled :=
  match file with
  | None => mkHandled st (Some (lit "Please select a file")) false
  | Some f =>
      match read with
      | ReadLoaded content =>
          let newDoc := mkDocument nowMs (fileName f) content (fileSize f) nowIso in
          let updatedDocs := uploadedDocuments st ++ [newDoc] in
          if writeOk
          then mkHandled (mkState updatedDocs updatedDocs)
                         (Some (lit "File processed and stored locally!")) false
          else mkHandled (mkState updatedDocs (stored st)) None true
      | ReadFailed => mkHandled st (Some (lit "Failed to read file")) false
      | ReadThrew message =>
          mkHandled st (Some (lit "Error reading file: " ++ message)) false
      end
  end.

(** A user action that changes the store, with the fate of its write. *)
Inductive StoreOp : Type :=
  | UploadOp (file : option SelectedFile) (read : ReadResult)
             (nowMs nowIso : str) (writeOk : bool)
  | DeleteOp (confirmed : bool) (docId : str) (writeOk : bool).

Definition applyOp (st : State) (op : StoreOp) : State :=
  match op with
  | UploadOp file read nowMs nowIso writeOk =>
      after (handleUploadIO file read nowMs nowIso writeOk st)
  | DeleteOp confirmed docId writeOk =>
      after (handleDeleteDocumentIO confirmed writeOk docId st)
  end.

Definition writeSucceeds (op : StoreOp) : bool :=
  match op with
  | UploadOp _ _ _ _ writeOk => writeOk
  | DeleteOp _ _ writeOk => writeOk
  end.

(** [findAnswerInDocuments] from the sorted [relevantChunks] on. *)
Definition answerFromChunks (ranked : list Chunk) : AnswerResult :=
  let topChunks := slice0 3 ranked in
  if length topChunks =? 0 then mkAnswerResult nothingFound []
  else mkAnswerResult
         (join separator (map text topChunks))
         (map (fun n => mkSource n referenced) (setOf (map source topChunks))).

(** A run of [findAnswerInDocuments] in which [relevantChunks.sort] is any
    sort that the language allows. *)
Definition clientRun (regExpMatch : RegExpMatch) (query : str)
    (docs : list Document) (r : Outcome AnswerResult) : Prop :=
  let keywords := keywordsOf query in
  if length keywords =? 0 then r = Ok (mkAnswerResult askMoreSpecific [])
  else match relevantChunksOf regExpMatch keywords docs with
       | Throw e => r = Throw e
       | Ok relevantChunks =>
           exists sorted,
             sortResult compareChunks relevantChunks sorted
             /\ r = Ok (answerFromChunks sorted)
       end.

End Client.

(** ** Sample data *)
Module Examples.
Import Js.

Definition blankLine : str := [ascii_of_nat 10; ascii_of_nat 10].

Definition policyText : str :=
  lit "Vacation requests must be submitted 2 weeks in advance. Approval is manager discretion.".

Definition policy : Server.Document :=
  Server.mkDocument 1 (lit "policy.txt") (lit "file-1.txt")
    (lit "uploads/file-1.txt") 87 policyText 0.

Definition handbook : Server.Document :=
  Server.mkDocument 2 (lit "handbook.txt") (lit "file-2.txt")
    (lit "uploads/file-2.txt") 29 (lit "The cat sat on the mat today.") 0.

Definition policyStore : Server.State :=
  Server.mkState [policy; handbook]
    [lit "uploads/file-2.txt"; lit "uploads/file-1.txt"].

Definition fileNamed (n : String.string) : Server.UploadedFile :=
  Server.mkUploadedFile (lit n) (lit "file-0.txt") (lit "uploads/file-0.txt") 5.

(** Upload two files, delete the first, upload a third. *)
Definition uploadDeleteUpload : list Server.StoreOp :=
  [Server.Upload (fileNamed "a.txt") (lit "alpha") 0;
   Server.Upload (fileNamed "b.txt") (lit "bravo") 1;
   Server.Delete (Some 1%Z) false;
   Server.Upload (fileNamed "c.txt") (lit "delta") 2].

(** A model client whose call is rejected, and one whose completion has no
    [choices]. *)
Definition unauthorized : Server.OpenAIClient := fun _ _ => Throw (ApiError 401).
Definition malformed : Server.OpenAIClient :=
  fun _ _ => Ok (Server.mkCompletion None).

Definition vacationQuestion : str := lit "How many weeks notice for vacation?".

Definition clientPolicy : Client.Document :=
  Client.mkDocument (lit "1700000000000") (lit "policy.txt") policyText 87
    (lit "2023-11-14T22:13:20.000Z").

Definition incomeNotes : Client.Document :=
  Client.mkDocument (lit "1700000000001") (lit "notes.txt")
    (lit "income income income" ++ blankLine ++ lit "income taxes") 34
    (lit "2023-11-14T22:13:20.001Z").

Definition clientStore : Client.State :=
  Client.mkState [clientPolicy; incomeNotes] [clientPolicy; incomeNotes].

Definition incomeQuery : str := lit "income taxes".

(** The score of a chunk under [plainWordRegExp], 0 when the pattern is
    outside that instance. *)
Definition plainScore (keywords : list str) (doc : Client.Document) (chunk : str)
  : Z :=
  match Client.scoreChunk plainWordRegExp keywords (toLowerCase chunk) with
  | Ok sc => sc
  | Throw _ => 0%Z
  end.


(** An upload and a deletion whose writes to local storage succeed. *)
Definition clientSession : list Client.StoreOp :=
  [Client.UploadOp (Some (Client.mkSelectedFile (lit "notes.txt") 34))
     (Client.ReadLoaded (Client.content incomeNotes))
     (lit "1700000000001") (lit "2023-11-14T22:13:20.001Z") true;
   Client.DeleteOp true (lit "1700000000000") true].

(** A question whose only long word does not parse as a pattern. *)
Definition parenQuestion : str := lit "vacation( ?".

(** A document whose name has nothing before its first dot. *)
Definition dotfile : Server.Document :=
  Server.mkDocument 3 (lit ".env") (lit "file-3.txt") (lit "uploads/file-3.txt")
    40 (lit "The service reads its settings at start.") 0.

(** A query whose first keyword does not parse as a pattern, and a document
    that contains it. *)
Definition parenQuery : str := lit "(income taxes".

Definition parenNotes : Client.Document :=
  Client.mkDocument (lit "1700000000002") (lit "ledger.txt")
    (lit "net (income after taxes") 23 (lit "2023-11-14T22:13:20.002Z").

(** A completion with one choice. *)
Definition completes (content : String.string) : Server.OpenAIClient :=
  fun _ _ =>
    Ok (Server.mkCompletion
          (Some [Server.mkChoice (Some (Server.mkChatMessage (Some (lit content))))])).

End Examples.

(** ** Properties of the primitives *)
Module JsFacts.
Import Js.

Lemma eqStr_true_iff (a b : str) : eqStr a b = true <-> a = b.
Proof.
  revert b; induction a as [|x a IH]; intros [|y b]; simpl; split;
    try congruence; try reflexivity.
  - intros H. apply andb_true_iff in H as [Hx Hab].
    apply Ascii.eqb_eq in Hx. apply IH in Hab. congruence.
  - intros H. injection H as -> ->. apply andb_true_iff. split.
    + apply Ascii.eqb_refl.
    + now apply IH.
Qed.

Lemma eqStr_refl (a : str) : eqStr a a = true.
Proof. now apply eqStr_true_iff. Qed.

Lemma eqStr_false_iff (a b : str) : eqStr a b = false <-> a <> b.
Proof.
  rewrite <- eqStr_true_iff. destruct (eqStr a b); split; congruence.
Qed.

Lemma substringOf_refl (s : str) : substringOf s s.
Proof. exists [], []. now rewrite app_nil_r. Qed.

Lemma substringOf_nil (s : str) : substringOf [] s.
Proof. now exists [], s. Qed.

Lemma substringOf_trans (a b c : str) :
  substringOf a b -> substringOf b c -> substringOf a c.
Proof.
  intros (p1 & q1 & ->) (p2 & q2 & ->).
  exists (p2 ++ p1), (q1 ++ q2). now rewrite <- !app_assoc.
Qed.

Lemma substringOf_cons (c : ascii) (a s : str) :
  substringOf a s -> substringOf a (c :: s).
Proof. intros (p & q & ->). now exists (c :: p), q. Qed.

Lemma substringOf_prefix (a rest : str) : substringOf a (a ++ rest).
Proof. now exists [], rest. Qed.

Lemma substringOf_suffix (pre a : str) : substringOf a (pre ++ a).
Proof. exists pre, []. now rewrite app_nil_r. Qed.

Lemma substringOf_length (a s : str) : substringOf a s -> length a <= length s.
Proof. intros (p & q & ->). rewrite !length_app. lia. Qed.

Lemma startsWith_true_iff (p s : str) :
  startsWith p s = true <-> exists rest, s = p ++ rest.
Proof.
  revert s; induction p as [|x p IH]; intros s; simpl.
  - split; [intros _; now exists s | reflexivity].
  - destruct s as [|y s].
    + split; [discriminate | intros [rest H]; discriminate].
    + rewrite andb_true_iff, Ascii.eqb_eq, IH. split.
      * intros [-> [rest ->]]. now exists rest.
      * intros [rest H]. injection H as -> ->. split; [reflexivity | now exists rest].
Qed.

(** [includes] decides [substringOf]. *)
Lemma includes_true_iff (s needle : str) :
  includes s needle = true <-> substringOf needle s.
Proof.
  induction s as [|c s IH]; simpl.
  - rewrite orb_false_r, startsWith_true_iff. split.
    + intros [rest H]. exists [], rest. exact H.
    + intros (p & q & H). symmetry in H.
      apply app_eq_nil in H as [-> H]. apply app_eq_nil in H as [-> ->].
      now exists [].
  - rewrite orb_true_iff, startsWith_true_iff, IH. split.
    + intros [[rest ->] | H].
      * apply substringOf_prefix.
      * now apply substringOf_cons.
    + intros (p & q & H). destruct p as [|x p].
      * left. now exists q.
      * right. injection H as -> ->. now exists p, q.
Qed.

Lemma trimStart_suffix (s : str) : exists pre, s = pre ++ trimStart s.
Proof.
  induction s as [|c s [pre IH]]; simpl.
  - now exists [].
  - destruct (isWhiteSpace c).
    + exists (c :: pre). simpl. now rewrite <- IH.
    + now exists [].
Qed.

Lemma trimEnd_prefix (s : str) : exists post, s = trimEnd s ++ post.
Proof.
  unfold trimEnd. destruct (trimStart_suffix (rev s)) as [pre H].
  exists (rev pre). rewrite <- rev_app_distr, <- H. now rewrite rev_involutive.
Qed.

Lemma trim_substringOf (s : str) : substringOf (trim s) s.
Proof.
  unfold trim. destruct (trimStart_suffix s) as [pre H].
  destruct (trimEnd_prefix (trimStart s)) as [post H'].
  exists pre, post. now rewrite <- H'.
Qed.

Lemma substring_from_0 (n : nat) (s : str) : substring 0 n s = firstn n s.
Proof.
  unfold substring. simpl. rewrite Nat.sub_0_r.
  destruct (Nat.le_ge_cases n (length s)) as [H | H].
  - now rewrite Nat.min_l.
  - rewrite Nat.min_r by exact H. now rewrite !firstn_all2.
Qed.

Lemma substring_substringOf (a b : nat) (s : str) :
  substringOf (substring a b s) s.
Proof.
  unfold substring. cbv zeta.
  match goal with
  | |- substringOf (firstn ?n (skipn ?lo s)) s =>
      exists (firstn lo s), (skipn n (skipn lo s))
  end.
  now rewrite !firstn_skipn.
Qed.

Lemma substring_from_0_length (n : nat) (s : str) :
  length (substring 0 n s) <= n.
Proof. rewrite substring_from_0. apply firstn_le_length. Qed.

Lemma lowerChar_idempotent (c : ascii) : lowerChar (lowerChar c) = lowerChar c.
Proof.
  destruct c as [[] [] [] [] [] [] [] []]; reflexivity.
Qed.

Lemma toLowerCase_lower (s : str) : Forall (fun c => lowerChar c = c) (toLowerCase s).
Proof.
  unfold toLowerCase. apply Forall_forall. intros c Hc.
  apply in_map_iff in Hc as (d & <- & _). apply lowerChar_idempotent.
Qed.

Lemma toLowerCase_length (s : str) : length (toLowerCase s) = length s.
Proof. apply length_map. Qed.

End JsFacts.

(** ** Splitting, sorting and sets *)
Module ArrayFacts.
Import Js JsFacts.

Lemma pieceOf_cons sep c s p : pieceOf sep s p -> pieceOf sep (c :: s) p.
Proof. intros [H1 H2]. split; [now apply substringOf_cons | exact H2]. Qed.

Lemma pieceOf_nil sep s : pieceOf sep s [].
Proof. split; [apply substringOf_nil | constructor]. Qed.

Create HintDb split.
#[local] Hint Resolve pieceOf_cons pieceOf_nil : split.

Lemma splitRunsFrom_spec sep s :
  (forall b, Forall (pieceOf sep s) (splitRunsFrom sep b s))
  /\ exists p0 ps rest, splitRunsFrom sep false s = p0 :: ps /\ s = p0 ++ rest.
Proof.
  induction s as [|c s [IHall (p0 & ps & rest & IHeq & IHs)]]; simpl.
  - split; [intros _; constructor; [apply pieceOf_nil | constructor]
           | now exists [], [], []].
  - destruct (sep c) eqn:Hc.
    + assert (Hlift : Forall (pieceOf sep (c :: s)) (splitRunsFrom sep true s)).
      { eapply Forall_impl; [|apply IHall]. auto with split. }
      split.
      * intros [|]; [exact Hlift | constructor; auto with split].
      * now exists [], (splitRunsFrom sep true s), (c :: s).
    + rewrite IHeq. pose proof (IHall false) as Hf. rewrite IHeq in Hf.
      inversion Hf as [|? ? [_ Hp0] Hps]; subst.
      split.
      * intros _. constructor.
        -- split; [apply (substringOf_prefix (c :: p0) rest) | now constructor].
        -- eapply Forall_impl; [|exact Hps]. auto with split.
      * now exists (c :: p0), ps, rest.
Qed.

Lemma splitRuns_pieces sep s : Forall (pieceOf sep s) (splitRuns sep s).
Proof. apply splitRunsFrom_spec. Qed.

Lemma splitOn_spec sep s :
  Forall (pieceOf sep s) (splitOn sep s)
  /\ exists p0 ps rest, splitOn sep s = p0 :: ps /\ s = p0 ++ rest.
Proof.
  induction s as [|c s [IHall (p0 & ps & rest & IHeq & IHs)]]; simpl.
  - split; [constructor; [apply pieceOf_nil | constructor]
           | now exists [], [], []].
  - destruct (sep c) eqn:Hc.
    + split.
      * constructor; auto with split.
        eapply Forall_impl; [|apply IHall]; auto with split.
      * now exists [], (splitOn sep s), (c :: s).
    + rewrite IHeq. rewrite IHeq in IHall.
      inversion IHall as [|? ? [_ Hp0] Hps]; subst.
      split.
      * constructor.
        -- split; [apply (substringOf_prefix (c :: p0) rest) | now constructor].
        -- eapply Forall_impl; [|exact Hps]. auto with split.
      * now exists (c :: p0), ps, rest.
Qed.

Lemma splitOn_pieces sep s : Forall (pieceOf sep s) (splitOn sep s).
Proof. apply splitOn_spec. Qed.

Section Sorting.
Context {A : Type}.
Variable cmp : A -> A -> Z.

Lemma insertBy_perm x l : Permutation (insertBy cmp x l) (x :: l).
Proof.
  induction l as [|y l IH]; simpl.
  - apply Permutation_refl.
  - destruct (0 <? cmp x y)%Z.
    + rewrite IH. apply perm_swap.
    + apply Permutation_refl.
Qed.

Lemma sortBy_perm l : Permutation (sortBy cmp l) l.
Proof.
  induction l as [|x l IH]; simpl.
  - apply Permutation_refl.
  - rewrite insertBy_perm. now constructor.
Qed.

Lemma sortBy_In x l : In x (sortBy cmp l) <-> In x l.
Proof.
  split; apply Permutation_in;
    [apply sortBy_perm | apply Permutation_sym, sortBy_perm].
Qed.

Lemma sortBy_length l : length (sortBy cmp l) = length l.
Proof. apply Permutation_length, sortBy_perm. Qed.

(** Inserting [x] leaves the order of the elements selected by [p] as it
    is, as long as [x] does not go after the selected elements. *)
Lemma insertBy_filter (p : A -> bool) x l :
  (forall y, In y l -> p x = true -> p y = true -> (cmp x y <= 0)%Z) ->
  filter p (insertBy cmp x l) = filter p (x :: l).
Proof.
  induction l as [|y l IH]; intros H; [reflexivity|].
  simpl insertBy. destruct (0 <? cmp x y)%Z eqn:Hxy; [|reflexivity].
  apply Z.ltb_lt in Hxy.
  assert (IH' : filter p (insertBy cmp x l) = filter p (x :: l)).
  { apply IH. intros z Hz. apply H. now right. }
  simpl in *. rewrite IH'.
  destruct (p x) eqn:Hpx, (p y) eqn:Hpy; try reflexivity.
  specialize (H y (or_introl eq_refl) eq_refl Hpy). lia.
Qed.

(** Stability: elements that the comparator does not separate keep
    their order. *)
Lemma sortBy_stable (p : A -> bool) l :
  (forall a b, In a l -> In b l -> p a = true -> p b = true ->
               (cmp a b <= 0)%Z) ->
  filter p (sortBy cmp l) = filter p l.
Proof.
  induction l as [|x l IH]; intros H; [reflexivity|].
  simpl sortBy. rewrite insertBy_filter.
  - simpl. rewrite IH; [reflexivity|].
    intros a b Ha Hb. apply H; now right.
  - intros y Hy. apply (proj1 (sortBy_In y l)) in Hy.
    apply H; [now left | now right].
Qed.

Hypothesis cmp_total : forall a b, (0 < cmp a b)%Z -> (cmp b a <= 0)%Z.
Hypothesis cmp_trans :
  forall a b c, (cmp a b <= 0)%Z -> (cmp b c <= 0)%Z -> (cmp a c <= 0)%Z.

Lemma insertBy_sorted x l :
  StronglySorted (fun a b => (cmp a b <= 0)%Z) l ->
  StronglySorted (fun a b => (cmp a b <= 0)%Z) (insertBy cmp x l).
Proof.
  induction l as [|y l IH]; intros Hs; simpl.
  - repeat constructor.
  - inversion Hs as [|? ? Hl Hy]; subst.
    destruct (0 <? cmp x y)%Z eqn:Hxy.
    + apply Z.ltb_lt in Hxy. constructor; [now apply IH|].
      apply Forall_forall. intros z Hz.
      apply (Permutation_in _ (insertBy_perm x l)) in Hz as [<- | Hz].
      * now apply cmp_total.
      * rewrite Forall_forall in Hy. now apply Hy.
    + apply Z.ltb_ge in Hxy. constructor; [exact Hs|].
      constructor; [exact Hxy|].
      eapply Forall_impl; [|exact Hy]. intros z Hz.
      now apply cmp_trans with y.
Qed.

Lemma sortBy_sorted l :
  StronglySorted (fun a b => (cmp a b <= 0)%Z) (sortBy cmp l).
Proof.
  induction l as [|x l IH]; simpl; [constructor | now apply insertBy_sorted].
Qed.
End Sorting.

Lemma setOf_In x l : In x (setOf l) <-> In x l.
Proof.
  induction l as [|y l IH]; simpl; [reflexivity|].
  rewrite filter_In, IH, negb_true_iff, eqStr_false_iff.
  destruct (list_eq_dec ascii_dec y x) as [-> | Hne]; [tauto|].
  split; [tauto|]. intros [H | H]; [tauto | right; split; congruence].
Qed.

Lemma setOf_NoDup l : NoDup (setOf l).
Proof.
  induction l as [|x l IH]; simpl; constructor.
  - rewrite filter_In, eqStr_refl. intros [_ H]. discriminate.
  - now apply NoDup_filter.
Qed.

Lemma filter_length_le {A} (p : A -> bool) l : length (filter p l) <= length l.
Proof.
  induction l as [|x l IH]; simpl; [lia|]. destruct (p x); simpl; lia.
Qed.

Lemma setOf_length l : length (setOf l) <= length l.
Proof.
  induction l as [|x l IH]; simpl; [lia|].
  pose proof (filter_length_le (fun y => negb (eqStr y x)) (setOf l)). lia.
Qed.

Lemma slice0_length {A} n (l : list A) : length (slice0 n l) <= n.
Proof. apply firstn_le_length. Qed.

Lemma slice0_In {A} n (l : list A) x : In x (slice0 n l) -> In x l.
Proof.
  unfold slice0. intros H. rewrite <- (firstn_skipn n l).
  apply in_or_app. now left.
Qed.

Lemma findIndex_none {A} (p : A -> bool) l :
  findIndex p l = None <-> forall x, In x l -> p x = false.
Proof.
  induction l as [|y l IH]; simpl.
  - split; [intros _ x [] | reflexivity].
  - destruct (p y) eqn:Hy.
    + split; [discriminate|]. intros H. rewrite (H y) in Hy by now left.
      discriminate.
    + destruct (findIndex p l).
      * split; [discriminate|]. intros H.
        assert (Some n = None) by (apply IH; intros; apply H; now right).
        discriminate.
      * split; [|reflexivity]. intros _ x [<- | Hx]; [exact Hy|].
        now apply IH.
Qed.

End ArrayFacts.

(** ** The server's store and fallback engine *)
Module ServerFacts.
Import Js JsFacts ArrayFacts Server.

Lemma deleteDocument_unknown docId unlinkThrows st :
  (forall d, In d (uploadedDocuments st) -> Some (id d) <> docId) ->
  deleteDocument docId unlinkThrows st
  = (st, mkResponse 404 (ErrorBody (lit "Document not found"))).
Proof.
  intros H. unfold deleteDocument.
  match goal with
  | |- context [findIndex ?p ?l] =>
      assert (Hnone : findIndex p l = None)
  end.
  { apply findIndex_none. intros d Hd. specialize (H d Hd).
    destruct docId as [n|]; [|reflexivity].
    apply Z.eqb_neq. congruence. }
  now rewrite Hnone.
Qed.

Lemma uploads_ids (files : list (UploadedFile * str * Z)) st :
  map id (uploadedDocuments
            (fold_left applyOp
               (map (fun f => Upload (fst (fst f)) (snd (fst f)) (snd f)) files) st))
  = map id (uploadedDocuments st)
    ++ map (fun i => Z.of_nat (length (uploadedDocuments st) + i) + 1)%Z
           (seq 0 (length files)).
Proof.
  revert st; induction files as [|f files IH]; intros st; simpl.
  - now rewrite app_nil_r.
  - rewrite IH. simpl. rewrite map_app, <- app_assoc, length_app. simpl.
    f_equal. f_equal.
    + now rewrite Nat.add_0_r.
    + rewrite <- seq_shift, map_map. apply map_ext. intros i.
      f_equal. f_equal. lia.
Qed.

Lemma compareMatches_le a b : (compareMatches a b <= 0)%Z <-> ranksBefore a b.
Proof.
  unfold compareMatches, ranksBefore.
  destruct (Z.eqb_spec (score b) (score a)); simpl; lia.
Qed.

Lemma compareMatches_total a b :
  (0 < compareMatches a b)%Z -> (compareMatches b a <= 0)%Z.
Proof.
  unfold compareMatches.
  destruct (Z.eqb_spec (score b) (score a)), (Z.eqb_spec (score a) (score b));
    simpl; lia.
Qed.

Lemma compareMatches_trans a b c :
  (compareMatches a b <= 0)%Z -> (compareMatches b c <= 0)%Z ->
  (compareMatches a c <= 0)%Z.
Proof. rewrite !compareMatches_le. unfold ranksBefore. lia. Qed.

Lemma flat_map_keep_if {A B} (f : A -> B) (p : B -> bool) (l : list A) :
  flat_map (fun x => if p (f x) then [f x] else []) l = filter p (map f l).
Proof.
  induction l as [|x l IH]; simpl; [reflexivity|].
  rewrite IH. now destruct (p (f x)).
Qed.

Lemma filter_flat_map {A B} (f : A -> list B) (p : B -> bool) (l : list A) :
  filter p (flat_map f l) = flat_map (fun x => filter p (f x)) l.
Proof.
  induction l as [|x l IH]; simpl; [reflexivity|].
  now rewrite filter_app, IH.
Qed.

(** [allMatches] holds exactly the scored sentences whose score is
    positive, in loop order. *)
Lemma allMatchesOf_scored question documents :
  allMatchesOf question documents
  = filter (fun m => (0 <? score m)%Z) (scoredSentences question documents).
Proof.
  unfold allMatchesOf, scoredSentences. rewrite filter_flat_map.
  apply flat_map_ext. intros doc.
  apply (flat_map_keep_if (matchOf _ _ doc) (fun m => (0 <? score m)%Z)).
Qed.

Lemma rankedMatches_perm question documents :
  Permutation (rankedMatches question documents) (allMatchesOf question documents).
Proof. apply sortBy_perm. Qed.

Lemma rankedMatches_sorted question documents :
  StronglySorted ranksBefore (rankedMatches question documents).
Proof.
  unfold rankedMatches.
  pose proof (sortBy_sorted compareMatches compareMatches_total
                compareMatches_trans (allMatchesOf question documents)) as H.
  induction H as [|a l Hl IH Ha]; constructor; [exact IH|].
  eapply Forall_impl; [|exact Ha]. intros b. apply compareMatches_le.
Qed.

Lemma rankedMatches_stable question documents (s c : Z) :
  let tie := fun m => ((score m =? s) && (matchCount m =? c))%Z in
  filter tie (rankedMatches question documents)
  = filter tie (allMatchesOf question documents).
Proof.
  intros tie. apply sortBy_stable. intros a b _ _ Ha Hb.
  unfold tie in *. apply andb_true_iff in Ha as [Ha1 Ha2].
  apply andb_true_iff in Hb as [Hb1 Hb2].
  apply Z.eqb_eq in Ha1, Ha2, Hb1, Hb2.
  apply compareMatches_le. unfold ranksBefore. lia.
Qed.

Lemma sentencesOf_substring text sentence :
  In sentence (sentencesOf text) -> substringOf sentence text.
Proof.
  unfold sentencesOf. intros H. apply filter_In in H as [H _].
  apply in_map_iff in H as (piece & <- & Hpiece).
  pose proof (splitRuns_pieces isSentenceEnd text) as Hall.
  rewrite Forall_forall in Hall. destruct (Hall _ Hpiece) as [Hsub _].
  eapply substringOf_trans; [apply trim_substringOf | exact Hsub].
Qed.

Lemma allMatchesOf_origin question documents m :
  In m (allMatchesOf question documents) ->
  exists doc sentence,
    In doc documents /\ In sentence (sentencesOf (content doc))
    /\ matchDocument m = name doc
    /\ matchExcerpt m = substring 0 300 (trim sentence).
Proof.
  rewrite allMatchesOf_scored. intros H. apply filter_In in H as [H _].
  unfold scoredSentences in H. apply in_flat_map in H as (doc & Hdoc & H).
  apply in_map_iff in H as (sentence & <- & Hs).
  now exists doc, sentence.
Qed.

Lemma slice0_min_length {A} n (l : list A) :
  slice0 (Nat.min n (length l)) l = slice0 n l.
Proof.
  unfold slice0. destruct (Nat.le_ge_cases n (length l)) as [H | H].
  - now rewrite Nat.min_l.
  - rewrite Nat.min_r by exact H. now rewrite !firstn_all2.
Qed.

Lemma getAnswerFromDocuments_ranked question documents :
  getAnswerFromDocuments question documents
  = match rankedMatches question documents with
    | [] => mkFallbackResult notFoundAnswer [] None
    | best :: _ =>
        mkFallbackResult (matchExcerpt best)
          (map sourceOfMatch (slice0 3 (rankedMatches question documents)))
          (Some (matchDocument best))
    end.
Proof.
  unfold getAnswerFromDocuments.
  destruct (rankedMatches question documents) as [|best rest]; [reflexivity|].
  now rewrite slice0_min_length.
Qed.

Lemma getAnswerFromDocuments_sources question documents :
  sources (getAnswerFromDocuments question documents)
  = map sourceOfMatch (slice0 3 (rankedMatches question documents)).
Proof.
  unfold getAnswerFromDocuments.
  destruct (rankedMatches question documents) as [|best rest] eqn:E; [reflexivity|].
  cbn [sources]. f_equal. unfold slice0.
  destruct (Nat.le_ge_cases 3 (length (best :: rest))) as [H | H].
  - now rewrite Nat.min_l.
  - rewrite Nat.min_r by exact H. now rewrite !firstn_all2.
Qed.

Lemma getAnswerFromDocuments_at_most_3 question documents :
  length (sources (getAnswerFromDocuments question documents)) <= 3.
Proof.
  rewrite getAnswerFromDocuments_sources, length_map. apply slice0_length.
Qed.

Lemma getAnswerFromDocuments_excerpts question documents s :
  In s (sources (getAnswerFromDocuments question documents)) ->
  exists doc, In doc documents /\ document s = name doc
              /\ substringOf (excerpt s) (content doc)
              /\ length (excerpt s) <= 300.
Proof.
  rewrite getAnswerFromDocuments_sources. intros H.
  apply in_map_iff in H as (m & <- & Hm). apply slice0_In in Hm.
  apply (Permutation_in _ (rankedMatches_perm question documents)) in Hm.
  apply allMatchesOf_origin in Hm as (doc & sentence & Hdoc & Hs & Hn & He).
  exists doc. simpl. rewrite He. repeat split; try assumption.
  - eapply substringOf_trans; [apply substring_substringOf|].
    eapply substringOf_trans; [apply trim_substringOf|].
    now apply sentencesOf_substring.
  - apply substring_from_0_length.
Qed.

Lemma questionWordsOf_spec questionLower w :
  In w (questionWordsOf questionLower)
  <-> In w (splitRuns isWhiteSpace questionLower) /\ 2 < length w.
Proof.
  unfold questionWordsOf. rewrite filter_In, Nat.ltb_lt. tauto.
Qed.

Lemma questionWordsOf_tokens question w :
  In w (questionWordsOf (toLowerCase question)) ->
  2 < length w
  /\ substringOf w (toLowerCase question)
  /\ Forall (fun c => isWhiteSpace c = false) w
  /\ Forall (fun c => lowerChar c = c) w.
Proof.
  intros H. apply questionWordsOf_spec in H as [H Hlen].
  pose proof (splitRuns_pieces isWhiteSpace (toLowerCase question)) as Hall.
  rewrite Forall_forall in Hall. destruct (Hall _ H) as [Hsub Hws].
  repeat split; try assumption.
  destruct Hsub as (pre & post & Heq).
  pose proof (toLowerCase_lower question) as Hl. rewrite Heq in Hl.
  apply Forall_app in Hl as [_ Hl]. now apply Forall_app in Hl as [Hl _].
Qed.

Lemma filter_all {A} (p : A -> bool) (l : list A) :
  (forall x, In x l -> p x = true) -> filter p l = l.
Proof.
  induction l as [|x l IH]; intros H; simpl; [reflexivity|].
  rewrite (H x) by now left. f_equal. apply IH. intros y Hy. apply H. now right.
Qed.

Lemma matchOf_no_keywords questionLower doc sentence :
  matchOf questionLower [] doc sentence
  = mkMatch (name doc) (substring 0 300 (trim sentence))
            (if includes (toLowerCase sentence) (questionPhraseOf questionLower)
             then 10%Z else 0%Z)
            0.
Proof.
  unfold matchOf, scoreSentence. simpl.
  now destruct (includes (toLowerCase sentence) (questionPhraseOf questionLower)).
Qed.

(** The sentences that contain the leading phrase of the question, as
    sources, in loop order. *)
Lemma allMatchesOf_no_keywords question documents :
  questionWordsOf (toLowerCase question) = [] ->
  allMatchesOf question documents = phraseMatches question documents.
Proof.
  intros H. unfold allMatchesOf, phraseMatches. rewrite H. apply flat_map_ext. intros doc.
  etransitivity;
    [apply (flat_map_keep_if (matchOf _ _ doc) (fun m => (0 <? score m)%Z))|].
  induction (sentencesOf (content doc)) as [|sentence l IH];
    cbn [map filter]; [reflexivity|].
  rewrite matchOf_no_keywords, IH.
  now destruct (includes (toLowerCase sentence)
                         (questionPhraseOf (toLowerCase question))).
Qed.

Lemma rankedMatches_no_keywords question documents :
  questionWordsOf (toLowerCase question) = [] ->
  rankedMatches question documents = allMatchesOf question documents.
Proof.
  intros H.
  assert (Hall : forall m, In m (allMatchesOf question documents) ->
                           score m = 10%Z /\ matchCount m = 0%Z).
  { rewrite (allMatchesOf_no_keywords _ _ H). unfold phraseMatches. intros m Hm.
    apply in_flat_map in Hm as (doc & _ & Hm).
    apply in_map_iff in Hm as (sentence & <- & _). now split. }
  pose proof (sortBy_stable compareMatches (fun _ => true)
                (allMatchesOf question documents)) as Hst.
  rewrite !filter_all in Hst by reflexivity.
  apply Hst. intros a b Ha Hb _ _.
  apply compareMatches_le. unfold ranksBefore.
  destruct (Hall a Ha), (Hall b Hb). lia.
Qed.

Section AskFacts.
Variable regExpMatch : RegExpMatch.

Lemma modelPath_ok client question documents response :
  modelPath regExpMatch client question documents = Ok response ->
  exists modelAnswer found,
    response = mkResponse 200
                 (AnswerBody question modelAnswer (slice0 3 found)
                             modelConfidence modelMethod).
Proof.
  unfold modelPath.
  destruct (client _ question) as [message|]; cbn [bind]; [|discriminate].
  destruct (answerOfCompletion message) as [modelAnswer|]; cbn [bind];
    [|discriminate].
  destruct (sourceSetOf _ _ _ _) as [sourceSet|]; cbn [bind]; [|discriminate].
  intros H. injection H as <-. do 2 eexists. reflexivity.
Qed.

(** The three ways in which the model path fails. *)
Lemma modelPath_throws client question documents e :
  modelPath regExpMatch client question documents = Throw e
  <-> client (systemPromptOf (documentContentOf documents)) question = Throw e
      \/ (exists message,
            client (systemPromptOf (documentContentOf documents)) question
            = Ok message
            /\ (answerOfCompletion message = Throw e
                \/ exists modelAnswer,
                     answerOfCompletion message = Ok modelAnswer
                     /\ sourceSetOf regExpMatch modelAnswer
                          (modelQuestionWordsOf (toLowerCase question))
                          documents = Throw e)).
Proof.
  unfold modelPath.
  destruct (client _ question) as [message|e0]; cbn [bind].
  - destruct (answerOfCompletion message) as [modelAnswer|e1] eqn:Ha; cbn [bind].
    + destruct (sourceSetOf _ _ _ _) as [sourceSet|e2] eqn:Hs; cbn [bind].
      * split; [discriminate|].
        intros [H | (m & Hm & [H | (a & Hma & H)])]; congruence.
      * split.
        -- intros H. right. exists message. split; [reflexivity|].
           right. exists modelAnswer. split; [exact Ha|]. congruence.
        -- intros [H | (m & Hm & [H | (a & Hma & H)])]; congruence.
    + split.
      * intros H. right. exists message. split; [reflexivity|]. left. congruence.
      * intros [H | (m & Hm & [H | (a & Hma & H)])]; congruence.
  - split.
    + intros H. left. congruence.
    + intros [H | (m & Hm & _)]; congruence.
Qed.

Lemma ask_valid openai question st :
  question <> [] -> uploadedDocuments st <> [] ->
  ask regExpMatch openai (Some question) st
  = match openai with
    | None =>
        mkResponse 500
          (ErrorBody (lit "OpenAI API not initialized. Please check your API key."))
    | Some client =>
        match modelPath regExpMatch client question (uploadedDocuments st) with
        | Ok response => response
        | Throw _ => fallbackResponse question (uploadedDocuments st)
        end
    end.
Proof.
  intros Hq Hd. unfold ask.
  destruct question as [|c question]; [congruence|].
  destruct (uploadedDocuments st) as [|d docs]; [congruence|].
  simpl. now destruct openai.
Qed.

Lemma ask_sources_at_most_3 openai question st q a srcs c m :
  body (ask regExpMatch openai question st) = AnswerBody q a srcs c m ->
  length srcs <= 3.
Proof.
  unfold ask.
  destruct question as [[|ch question]|]; try discriminate.
  destruct (length (uploadedDocuments st) =? 0); [discriminate|].
  destruct openai as [client|]; [|discriminate].
  destruct (modelPath _ client _ _) as [response|e] eqn:Hm.
  - apply modelPath_ok in Hm as (modelAnswer & found & ->). cbn [body].
    intros H. injection H as _ _ <- _ _. exact (slice0_length 3 found).
  - unfold fallbackResponse. cbn [body]. intros H. injection H as _ _ <- _ _.
    exact (getAnswerFromDocuments_at_most_3 _ _).
Qed.
End AskFacts.

End ServerFacts.

(** ** The client's store and engine *)
Module ClientFacts.
Import Js JsFacts ArrayFacts Client.

Lemma handleDeleteDocument_unknown confirmed docId st :
  (forall d, In d (uploadedDocuments st) -> id d <> docId) ->
  uploadedDocuments (handleDeleteDocument confirmed docId st) = uploadedDocuments st.
Proof.
  intros H. unfold handleDeleteDocument. destruct confirmed; [|reflexivity].
  simpl. apply ServerFacts.filter_all. intros d Hd.
  apply negb_true_iff, eqStr_false_iff. now apply H.
Qed.

Lemma foldM_ext {A B} (f g : B -> A -> Outcome B) acc l :
  (forall b a, f b a = g b a) -> foldM f acc l = foldM g acc l.
Proof.
  intros H. revert acc; induction l as [|x l IH]; intros acc; simpl; [reflexivity|].
  rewrite H. destruct (g acc x); simpl; [apply IH | reflexivity].
Qed.

Section EngineFacts.
Variable regExpMatch : RegExpMatch.

Lemma pushChunks_scored keywords doc (sc : str -> Z) chunks acc :
  (forall chunk, In chunk chunks ->
                 scoreChunk regExpMatch keywords (toLowerCase chunk) = Ok (sc chunk)) ->
  foldM (pushChunk regExpMatch keywords doc) acc chunks
  = Ok (acc ++ filter (fun c => (0 <? score c)%Z)
                      (map (fun chunk => mkChunk (trim chunk) (sc chunk) (name doc))
                           chunks)).
Proof.
  revert acc; induction chunks as [|chunk chunks IH]; intros acc H; simpl.
  - now rewrite app_nil_r.
  - unfold pushChunk at 1. rewrite (H chunk) by now left. simpl.
    destruct (0 <? sc chunk)%Z; simpl.
    + rewrite IH by (intros; apply H; now right). now rewrite <- app_assoc.
    + apply IH. intros; apply H; now right.
Qed.

Lemma relevantChunksOf_from keywords (sc : Document -> str -> Z) docs acc :
  (forall doc chunk, In doc docs -> In chunk (splitBlankLines (content doc)) ->
     scoreChunk regExpMatch keywords (toLowerCase chunk) = Ok (sc doc chunk)) ->
  foldM (fun relevantChunks doc =>
           foldM (pushChunk regExpMatch keywords doc) relevantChunks
                 (splitBlankLines (content doc)))
        acc docs
  = Ok (acc ++ filter (fun c => (0 <? score c)%Z) (scoredChunks sc docs)).
Proof.
  revert acc; induction docs as [|doc docs IH]; intros acc H; simpl.
  - now rewrite app_nil_r.
  - rewrite (pushChunks_scored keywords doc (sc doc))
      by (intros; apply H; [now left | assumption]).
    simpl. rewrite IH by (intros; apply H; [now right | assumption]).
    unfold scoredChunks. simpl. now rewrite filter_app, <- app_assoc.
Qed.

(** When every chunk gets a score, [relevantChunks] holds exactly the
    chunks whose score is positive, in loop order. *)
Lemma relevantChunksOf_scored keywords (sc : Document -> str -> Z) docs :
  (forall doc chunk, In doc docs -> In chunk (splitBlankLines (content doc)) ->
     scoreChunk regExpMatch keywords (toLowerCase chunk) = Ok (sc doc chunk)) ->
  relevantChunksOf regExpMatch keywords docs
  = Ok (filter (fun c => (0 <? score c)%Z) (scoredChunks sc docs)).
Proof.
  intros H. unfold relevantChunksOf.
  now rewrite (relevantChunksOf_from keywords sc docs []).
Qed.

Lemma findAnswerInDocuments_cases query docs r :
  findAnswerInDocuments regExpMatch query docs = Ok r ->
  r = mkAnswerResult askMoreSpecific []
  \/ r = mkAnswerResult nothingFound []
  \/ exists ranked,
       rankedChunks regExpMatch (keywordsOf query) docs = Ok ranked
       /\ r = mkAnswerResult
                (join separator (map text (slice0 3 ranked)))
                (map (fun n => mkSource n referenced)
                     (setOf (map source (slice0 3 ranked)))).
Proof.
  unfold findAnswerInDocuments.
  destruct (length (keywordsOf query) =? 0).
  - intros H. injection H as <-. now left.
  - destruct (rankedChunks _ _ docs) as [ranked|]; cbn [bind]; [|discriminate].
    destruct (length (slice0 3 ranked) =? 0); intros H; injection H as <-.
    + right. now left.
    + right. right. now exists ranked.
Qed.

Lemma findAnswerInDocuments_names query docs r :
  findAnswerInDocuments regExpMatch query docs = Ok r ->
  exists names, NoDup names /\ length names <= 3
                /\ sources r = map (fun n => mkSource n referenced) names.
Proof.
  intros H. apply findAnswerInDocuments_cases in H
    as [-> | [-> | (ranked & _ & ->)]].
  - exists []. repeat split; simpl; [constructor | lia].
  - exists []. repeat split; simpl; [constructor | lia].
  - exists (setOf (map source (slice0 3 ranked))). repeat split.
    + apply setOf_NoDup.
    + etransitivity; [apply setOf_length|]. rewrite length_map.
      apply slice0_length.
Qed.
End EngineFacts.

Lemma scoreChunk_ext re1 re2 keywords lowerChunk :
  (forall p f s, re1 p f s = re2 p f s) ->
  scoreChunk re1 keywords lowerChunk = scoreChunk re2 keywords lowerChunk.
Proof.
  intros H. unfold scoreChunk. apply foldM_ext. intros sc keyword.
  now rewrite H.
Qed.

Lemma relevantChunksOf_ext re1 re2 keywords docs :
  (forall p f s, re1 p f s = re2 p f s) ->
  relevantChunksOf re1 keywords docs = relevantChunksOf re2 keywords docs.
Proof.
  intros H. unfold relevantChunksOf. apply foldM_ext. intros acc doc.
  apply foldM_ext. intros acc' chunk. unfold pushChunk.
  now rewrite (scoreChunk_ext re1 re2).
Qed.

Lemma findAnswerInDocuments_ext re1 re2 query docs :
  (forall p f s, re1 p f s = re2 p f s) ->
  findAnswerInDocuments re1 query docs = findAnswerInDocuments re2 query docs.
Proof.
  intros H. unfold findAnswerInDocuments, rankedChunks.
  now rewrite (relevantChunksOf_ext re1 re2).
Qed.

Lemma scoreChunk_total re keywords lowerChunk :
  (forall p f s, exists r, re p f s = Ok r) ->
  exists sc, scoreChunk re keywords lowerChunk = Ok sc.
Proof.
  intros H. unfold scoreChunk. generalize 0%Z as acc.
  induction keywords as [|keyword keywords IH]; intros acc; cbn [foldM];
    [now exists acc|].
  destruct (includes lowerChunk keyword); cbn [bind]; [|apply IH].
  destruct (H (wordBoundary ++ keyword ++ wordBoundary) (lit "gi") lowerChunk)
    as [r ->].
  cbn [bind]. destruct r; cbn [bind]; apply IH.
Qed.

(** The engine returns a result whenever no regular expression fails to
    parse. *)
Lemma findAnswerInDocuments_total re query docs :
  (forall p f s, exists r, re p f s = Ok r) ->
  exists r, findAnswerInDocuments re query docs = Ok r.
Proof.
  intros H. unfold findAnswerInDocuments, rankedChunks.
  destruct (length (keywordsOf query) =? 0); [eauto|].
  set (sc := fun (doc : Document) chunk =>
               match scoreChunk re (keywordsOf query) (toLowerCase chunk) with
               | Ok z => z
               | Throw _ => 0%Z
               end).
  rewrite (relevantChunksOf_scored re (keywordsOf query) sc docs).
  - cbn [bind]. destruct (length _ =? 0); eauto.
  - intros doc chunk _ _. unfold sc.
    now destruct (scoreChunk_total re (keywordsOf query) (toLowerCase chunk) H)
      as [z ->].
Qed.

Lemma compareChunks_total a b :
  (0 < compareChunks a b)%Z -> (compareChunks b a <= 0)%Z.
Proof. unfold compareChunks. lia. Qed.

Lemma compareChunks_trans a b c :
  (compareChunks a b <= 0)%Z -> (compareChunks b c <= 0)%Z ->
  (compareChunks a c <= 0)%Z.
Proof. unfold compareChunks. lia. Qed.

Lemma keywordsOf_tokens query w :
  In w (keywordsOf query) ->
  3 < length w
  /\ ~ In w stopWords
  /\ Forall (fun c => isSpace c = false) w
  /\ Forall (fun c => isStripped c = false) w
  /\ Forall (fun c => lowerChar c = c) w.
Proof.
  unfold keywordsOf. intros H. apply filter_In in H as [H Hkeep].
  apply andb_true_iff in Hkeep as [Hlen Hstop].
  apply Nat.ltb_lt in Hlen. apply negb_true_iff in Hstop.
  set (cleaned := filter (fun c => negb (isStripped c)) (toLowerCase query)) in *.
  pose proof (splitOn_pieces isSpace cleaned) as Hall.
  rewrite Forall_forall in Hall. destruct (Hall _ H) as [(pre & post & Heq) Hsp].
  assert (Hin : forall c, In c w -> In c cleaned).
  { intros c Hc. rewrite Heq. apply in_or_app. right. apply in_or_app. now left. }
  repeat split; try assumption.
  - intros Hs. assert (existsb (eqStr w) stopWords = true); [|congruence].
    apply existsb_exists. exists w. split; [exact Hs | apply eqStr_refl].
  - apply Forall_forall. intros c Hc. apply Hin, filter_In in Hc as [_ Hc].
    now apply negb_true_iff.
  - apply Forall_forall. intros c Hc. apply Hin, filter_In in Hc as [Hc _].
    pose proof (toLowerCase_lower query) as Hl. rewrite Forall_forall in Hl.
    now apply Hl.
Qed.

End ClientFacts.

(** ** Sorting as the language defines it, and the two engines on it *)
Module RunFacts.
Import Js JsFacts ArrayFacts ServerFacts ClientFacts.

Section SortResult.
Context {A : Type}.
Variable cmp : A -> A -> Z.
Hypothesis cmp_total : forall a b, (0 < cmp a b)%Z -> (cmp b a <= 0)%Z.
Hypothesis cmp_trans :
  forall a b c, (cmp a b <= 0)%Z -> (cmp b c <= 0)%Z -> (cmp a c <= 0)%Z.

Lemma cmp_refl a : (cmp a a <= 0)%Z.
Proof.
  destruct (Z.ltb_spec 0 (cmp a a)) as [H | H]; [now apply cmp_total | exact H].
Qed.

(** The insertion sort is one of the sorts that the language allows. *)
Lemma sortResult_sortBy l : sortResult cmp l (sortBy cmp l).
Proof.
  split; [apply sortBy_perm|]. split; [now apply sortBy_sorted|].
  intros p Hp. apply sortBy_stable. intros a b _ _. apply Hp.
Qed.



Lemma tiedWith_class a x y :
  tiedWith cmp a x = true -> tiedWith cmp a y = true -> (cmp x y <= 0)%Z.
Proof.
  unfold tiedWith. rewrite !andb_true_iff, !Z.leb_le.
  intros [_ Hxa] [Hay _]. now apply cmp_trans with a.
Qed.

Lemma sorted_stable_unique l1 :
  forall l2,
    Permutation l1 l2 ->
    StronglySorted (fun a b => (cmp a b <= 0)%Z) l1 ->
    StronglySorted (fun a b => (cmp a b <= 0)%Z) l2 ->
    (forall p : A -> bool,
       (forall a b, p a = true -> p b = true -> (cmp a b <= 0)%Z) ->
       filter p l1 = filter p l2) ->
    l1 = l2.
Proof.
  induction l1 as [|a t1 IH]; intros l2 Hperm Hs1 Hs2 Hst.
  - apply Permutation_nil in Hperm. now subst.
  - destruct l2 as [|b t2].
    { apply Permutation_sym, Permutation_nil in Hperm. discriminate. }
    inversion Hs1 as [|? ? Hs1' Ha]; subst.
    inversion Hs2 as [|? ? Hs2' Hb]; subst.
    rewrite Forall_forall in Ha, Hb.
    assert (Hab : (cmp a b <= 0)%Z).
    { assert (Hin : In b (a :: t1))
        by (apply (Permutation_in _ (Permutation_sym Hperm)); now left).
      destruct Hin as [<- | Hin]; [apply cmp_refl | now apply Ha]. }
    assert (Hba : (cmp b a <= 0)%Z).
    { assert (Hin : In a (b :: t2)) by (apply (Permutation_in _ Hperm); now left).
      destruct Hin as [<- | Hin]; [apply cmp_refl | now apply Hb]. }
    assert (Heq : a = b).
    { pose proof (Hst (tiedWith cmp a) (tiedWith_class a)) as H.
      cbn [filter] in H.
      assert (Haa : tiedWith cmp a a = true).
      { unfold tiedWith. rewrite andb_true_iff, !Z.leb_le.
        split; apply cmp_refl. }
      assert (Htb : tiedWith cmp a b = true).
      { unfold tiedWith. now rewrite andb_true_iff, !Z.leb_le. }
      rewrite Haa, Htb in H. now injection H. }
    subst b. f_equal. apply IH; try assumption.
    + now apply Permutation_cons_inv with a.
    + intros p Hp. specialize (Hst p Hp). cbn [filter] in Hst.
      destruct (p a); [now injection Hst | exact Hst].
Qed.

(** A consistent comparator leaves one result only. *)
Lemma sortResult_unique l l1 l2 :
  sortResult cmp l l1 -> sortResult cmp l l2 -> l1 = l2.
Proof.
  intros (Hp1 & Hs1 & Hst1) (Hp2 & Hs2 & Hst2).
  apply sorted_stable_unique; try assumption.
  - now rewrite Hp1, Hp2.
  - intros p Hp. now rewrite Hst1, Hst2.
Qed.

Lemma sortResult_iff l l' : sortResult cmp l l' <-> l' = sortBy cmp l.
Proof.
  split.
  - intros H. apply (sortResult_unique l); [exact H | apply sortResult_sortBy].
  - intros ->. apply sortResult_sortBy.
Qed.
End SortResult.

Lemma answerFromRanked_ranked question documents :
  Server.getAnswerFromDocuments question documents
  = Server.answerFromRanked (Server.rankedMatches question documents).
Proof. reflexivity. Qed.

Lemma fallbackRun_iff question documents r :
  Server.fallbackRun question documents r
  <-> r = Server.getAnswerFromDocuments question documents.
Proof.
  rewrite answerFromRanked_ranked. unfold Server.fallbackRun, Server.rankedMatches.
  split.
  - intros (sorted & Hs & ->).
    apply (sortResult_iff _ compareMatches_total compareMatches_trans) in Hs.
    now subst.
  - intros ->. eexists. split; [|reflexivity].
    apply sortResult_sortBy;
      [apply compareMatches_total | apply compareMatches_trans].
Qed.

Lemma clientRun_iff regExpMatch query docs r :
  Client.clientRun regExpMatch query docs r
  <-> r = Client.findAnswerInDocuments regExpMatch query docs.
Proof.
  unfold Client.clientRun, Client.findAnswerInDocuments, Client.rankedChunks.
  destruct (length (Client.keywordsOf query) =? 0); [reflexivity|].
  destruct (Client.relevantChunksOf _ _ docs) as [cands | e]; cbn [bind];
    [|reflexivity].
  split.
  - intros (sorted & Hs & ->).
    apply (sortResult_iff _ compareChunks_total compareChunks_trans) in Hs.
    subst sorted. unfold Client.answerFromChunks.
    now destruct (length _ =? 0).
  - intros ->. exists (sortBy Client.compareChunks cands). split.
    + apply sortResult_sortBy;
        [apply compareChunks_total | apply compareChunks_trans].
    + unfold Client.answerFromChunks. now destruct (length _ =? 0).
Qed.

(** On a string, and on a body without the field, the handler is [ask]. *)
Lemma askRequest_text regExpMatch openai q st :
  Server.askRequest regExpMatch openai (Some (JString q)) st
  = Ok (Server.ask regExpMatch openai (Some q) st).
Proof. reflexivity. Qed.

Lemma askRequest_absent regExpMatch openai st :
  Server.askRequest regExpMatch openai None st
  = Ok (Server.ask regExpMatch openai None st).
Proof. reflexivity. Qed.

Lemma jsonString_dec (v : Json) :
  (exists q, v = JString q) \/ (forall q, v <> JString q).
Proof. destruct v; try (right; discriminate). left. now eexists. Qed.

End RunFacts.

(** ** The answer service and the document store *)
Module ServiceClaims.
Import Js JsFacts ArrayFacts Examples.
Import ServerFacts ClientFacts RunFacts.




(** C2 at the failing input: after two uploads, the deletion of document 1
    and a third upload, the store holds two different documents, [b.txt] and
    [c.txt], that both have the id 2. *)
Theorem upload_after_delete_repeats_id :
  let docs := Server.uploadedDocuments (Server.runOps uploadDeleteUpload) in
  map Server.name docs = [lit "b.txt"; lit "c.txt"]
  /\ map Server.id docs = [2%Z; 2%Z]
  /\ ~ NoDup (map Server.id docs).
Proof.
  split; [reflexivity|]. split; [reflexivity|].
  intros H. inversion H as [|? ? Hin _]. apply Hin. now left.
Qed.

(** Without deletions the ids are 1, 2, ..., n. *)
Lemma uploads_only_ids_unique (files : list (Server.UploadedFile * str * Z)) :
  NoDup (map Server.id
           (Server.uploadedDocuments
              (Server.runOps
                 (map (fun f => Server.Upload (fst (fst f)) (snd (fst f)) (snd f))
                      files)))).
Proof.
  unfold Server.runOps. rewrite uploads_ids. simpl.
  apply Finite.Injective_map_NoDup_in; [|apply seq_NoDup].
  intros i j _ _ H. lia.
Qed.




End ServiceClaims.

(** ** The lexical relevance engine, server and client *)
Module EngineClaims.
Import Js JsFacts ArrayFacts Examples.
Import ServerFacts ClientFacts RunFacts.

(** C3, as the code has it: when the keyword filter discards every token,
    the client returns the fixed request to ask more specifically with no
    sources; the server has no such check and returns the sentences that
    contain the first 15 characters of the lower-cased question (the best
    one as answer, the first three as sources), or its not-found answer
    with no sources when there is none. *)
Theorem no_keywords_result :
  (forall regExpMatch query docs,
     Client.keywordsOf query = [] ->
     Client.findAnswerInDocuments regExpMatch query docs
     = Ok (Client.mkAnswerResult Client.askMoreSpecific []))
  /\ (forall question documents,
        Server.questionWordsOf (toLowerCase question) = [] ->
        Server.getAnswerFromDocuments question documents
        = match Server.phraseMatches question documents with
          | [] => Server.mkFallbackResult Server.notFoundAnswer [] None
          | best :: _ =>
              Server.mkFallbackResult (Server.matchExcerpt best)
                (map Server.sourceOfMatch
                     (slice0 3 (Server.phraseMatches question documents)))
                (Some (Server.matchDocument best))
          end).
Proof.
  split.
  - intros regExpMatch query docs H. unfold Client.findAnswerInDocuments.
    now rewrite H.
  - intros question documents H.
    rewrite getAnswerFromDocuments_ranked, rankedMatches_no_keywords by exact H.
    now rewrite allMatchesOf_no_keywords by exact H.
Qed.

Lemma no_keywords_witness :
  Client.findAnswerInDocuments plainWordRegExp (lit "What is this?") [clientPolicy]
  = Ok (Client.mkAnswerResult Client.askMoreSpecific [])
  /\ Server.getAnswerFromDocuments (lit "it") [handbook]
     = Server.mkFallbackResult Server.notFoundAnswer [] None.
Proof.
  split.
  - apply (proj1 no_keywords_result). reflexivity.
  - apply (proj2 no_keywords_result (lit "it") [handbook]). reflexivity.
Defined.

(** C3 as stated fails on the server: the question [is] has no keyword,
    and the answer is a sentence of the document with one source. *)
Lemma server_answers_without_keywords :
  Server.questionWordsOf (toLowerCase (lit "is")) = []
  /\ Server.getAnswerFromDocuments (lit "is") [policy]
     = Server.mkFallbackResult (lit "Approval is manager discretion")
         [mkSource (lit "policy.txt") (lit "Approval is manager discretion")]
         (Some (lit "policy.txt"))
  /\ Server.sources (Server.getAnswerFromDocuments (lit "is") [policy]) <> [].
Proof.
  split; [reflexivity|]. split; [reflexivity | discriminate].
Qed.

(** C4, as the code has it: every excerpt of the server's keyword search
    is a substring of the content of a stored document, the one it names,
    and has at most 300 characters; every excerpt of the client is the
    fixed text [Referenced in answer generation.], which is not taken from
    any document. *)
Theorem excerpts_origin :
  (forall question documents s,
     In s (Server.sources (Server.getAnswerFromDocuments question documents)) ->
     exists doc, In doc documents
                 /\ document s = Server.name doc
                 /\ substringOf (excerpt s) (Server.content doc)
                 /\ length (excerpt s) <= 300)
  /\ (forall regExpMatch query docs r s,
        Client.findAnswerInDocuments regExpMatch query docs = Ok r ->
        In s (Client.sources r) ->
        excerpt s = Client.referenced /\ length (excerpt s) <= 300).
Proof.
  split.
  - apply getAnswerFromDocuments_excerpts.
  - intros regExpMatch query docs r s H Hs.
    apply findAnswerInDocuments_names in H as (names & _ & _ & Heq).
    rewrite Heq in Hs. apply in_map_iff in Hs as (n & <- & _).
    split; [reflexivity|]. vm_compute. lia.
Qed.

Lemma excerpts_origin_witness :
  (exists doc, In doc [policy; handbook]
               /\ lit "policy.txt" = Server.name doc
               /\ substringOf (lit "Vacation requests must be submitted 2 weeks in advance")
                              (Server.content doc)
               /\ length (lit "Vacation requests must be submitted 2 weeks in advance") <= 300)
  /\ (excerpt (mkSource (lit "policy.txt") Client.referenced) = Client.referenced
      /\ length (excerpt (mkSource (lit "policy.txt") Client.referenced)) <= 300).
Proof.
  split.
  - apply (proj1 excerpts_origin vacationQuestion [policy; handbook]
             (mkSource (lit "policy.txt")
                (lit "Vacation requests must be submitted 2 weeks in advance"))).
    vm_compute. now left.
  - apply (proj2 excerpts_origin plainWordRegExp (lit "vacation requests")
             [clientPolicy]
             (Client.mkAnswerResult policyText
                [mkSource (lit "policy.txt") Client.referenced])
             (mkSource (lit "policy.txt") Client.referenced)).
    + reflexivity.
    + now left.
Defined.

(** C4 as stated fails on the client: the excerpt of the only source is
    the fixed text, which does not occur in the document. *)
Lemma client_excerpt_not_from_content :
  Client.findAnswerInDocuments plainWordRegExp (lit "vacation requests") [clientPolicy]
  = Ok (Client.mkAnswerResult policyText
          [mkSource (lit "policy.txt") (lit "Referenced in answer generation.")])
  /\ ~ substringOf (lit "Referenced in answer generation.")
                   (Client.content clientPolicy).
Proof.
  split; [reflexivity|]. intros H. apply includes_true_iff in H.
  vm_compute in H. discriminate.
Qed.

(** C5: the keyword search of the server, every answer of [/api/ask]
    (model path or fallback) and the client engine list at most three
    sources. *)
Theorem sources_at_most_three (regExpMatch : RegExpMatch) :
  (forall question documents,
     length (Server.sources (Server.getAnswerFromDocuments question documents)) <= 3)
  /\ (forall openai question st q a srcs c m,
        Server.body (Server.ask regExpMatch openai question st)
        = Server.AnswerBody q a srcs c m ->
        length srcs <= 3)
  /\ (forall client question documents response,
        Server.modelPath regExpMatch client question documents = Ok response ->
        exists modelAnswer srcs,
          response = Server.mkResponse 200
                       (Server.AnswerBody question modelAnswer srcs
                          Server.modelConfidence Server.modelMethod)
          /\ length srcs <= 3)
  /\ (forall query docs r,
        Client.findAnswerInDocuments regExpMatch query docs = Ok r ->
        length (Client.sources r) <= 3).
Proof.
  split; [|split; [|split]].
  - apply getAnswerFromDocuments_at_most_3.
  - apply ask_sources_at_most_3.
  - intros client question documents response H.
    apply modelPath_ok in H as (modelAnswer & found & ->).
    exists modelAnswer, (slice0 3 found). split; [reflexivity|].
    apply slice0_length.
  - intros query docs r H.
    apply findAnswerInDocuments_names in H as (names & _ & Hlen & ->).
    now rewrite length_map.
Qed.

(** C10: the documents that the client lists are those of the three
    best-ranked chunks, each listed once, in the order of their first
    chunk. No document name occurs twice among the sources; a name is
    listed exactly when one of the three chunks comes from a document of
    that name; and every listed source carries the fixed excerpt. With no
    keyword there is no source. *)
Theorem client_sources_distinct (regExpMatch : RegExpMatch) query docs r :
  Client.findAnswerInDocuments regExpMatch query docs = Ok r ->
  let names := map document (Client.sources r) in
  NoDup names
  /\ Forall (fun s => excerpt s = Client.referenced) (Client.sources r)
  /\ ((Client.keywordsOf query = [] /\ names = [])
      \/ exists ranked,
           Client.rankedChunks regExpMatch (Client.keywordsOf query) docs = Ok ranked
           /\ names = setOf (map Client.source (slice0 3 ranked))
           /\ forall n, In n names
                        <-> exists c, In c (slice0 3 ranked) /\ Client.source c = n).
Proof.
  intros H. cbv zeta.
  assert (Hnames : forall l : list str,
            map document (map (fun n => mkSource n Client.referenced) l) = l).
  { intros l. rewrite map_map. cbn [document]. apply map_id. }
  unfold Client.findAnswerInDocuments in H.
  destruct (length (Client.keywordsOf query) =? 0) eqn:Hk.
  - injection H as <-. split; [constructor|]. split; [constructor|].
    left. split; [|reflexivity].
    apply Nat.eqb_eq in Hk. now apply length_zero_iff_nil.
  - destruct (Client.rankedChunks _ _ docs) as [ranked|] eqn:Hr; cbn [bind] in H;
      [|discriminate].
    assert (Hsrc : Client.sources r
                   = map (fun n => mkSource n Client.referenced)
                         (setOf (map Client.source (slice0 3 ranked)))).
    { destruct (length (slice0 3 ranked) =? 0) eqn:Hl; injection H as <-;
        [|reflexivity].
      apply Nat.eqb_eq, length_zero_iff_nil in Hl. now rewrite Hl. }
    rewrite Hsrc, Hnames.
    split; [apply setOf_NoDup|]. split.
    + apply Forall_forall. intros s Hs. apply in_map_iff in Hs as (n & <- & _).
      reflexivity.
    + right. exists ranked. split; [reflexivity|]. split; [reflexivity|].
      intros n. rewrite setOf_In, in_map_iff.
      split; intros (c & H1 & H2); now exists c.
Qed.

Lemma client_sources_distinct_witness :
  Client.rankedChunks plainWordRegExp (Client.keywordsOf incomeQuery) [incomeNotes]
  = Ok [Client.mkChunk (lit "income income income") 4 (lit "notes.txt");
        Client.mkChunk (lit "income taxes") 4 (lit "notes.txt")]
  /\ NoDup (map document [mkSource (lit "notes.txt") Client.referenced]).
Proof.
  split; [reflexivity|].
  apply (client_sources_distinct plainWordRegExp incomeQuery [incomeNotes]
           (Client.mkAnswerResult
              (lit "income income income" ++ Client.separator ++ lit "income taxes")
              [mkSource (lit "notes.txt") Client.referenced])).
  reflexivity.
Defined.

Lemma sources_at_most_three_witness :
  length (Server.sources (Server.getAnswerFromDocuments vacationQuestion [policy; handbook]))
  <= 3
  /\ length [mkSource (lit "policy.txt")
               (lit "Vacation requests must be submitted 2 weeks in advance")] <= 3
  /\ length [mkSource (lit "notes.txt") Client.referenced] <= 3.
Proof.
  split; [|split].
  - apply (proj1 (sources_at_most_three plainWordRegExp)).
  - apply (proj1 (proj2 (sources_at_most_three plainWordRegExp))
             (Some malformed) (Some vacationQuestion) policyStore
             vacationQuestion
             (lit "Vacation requests must be submitted 2 weeks in advance")
             _ Server.fallbackConfidence Server.fallbackMethod).
    reflexivity.
  - apply (proj2 (proj2 (proj2 (sources_at_most_three plainWordRegExp)))
             incomeQuery [incomeNotes]
             (Client.mkAnswerResult
                (lit "income income income" ++ Client.separator ++ lit "income taxes")
                [mkSource (lit "notes.txt") Client.referenced])).
    reflexivity.
Defined.

(** C6, as the code has it: the server lower-cases the question, splits it
    on runs of white space and keeps exactly the tokens of more than 2
    characters; the client lower-cases the query, deletes the characters
    [?], [.], [,] and [!], splits on single spaces and keeps exactly the
    tokens of more than 3 characters that are no stop word. A server
    keyword is a white-space-free substring of the lower-cased question. *)
Theorem tokenization_filters :
  (forall question w,
     In w (Server.questionWordsOf (toLowerCase question))
     <-> In w (splitRuns isWhiteSpace (toLowerCase question)) /\ 2 < length w)
  /\ (forall question w,
        In w (Server.questionWordsOf (toLowerCase question)) ->
        2 < length w
        /\ substringOf w (toLowerCase question)
        /\ Forall (fun c => isWhiteSpace c = false) w
        /\ Forall (fun c => lowerChar c = c) w)
  /\ (forall query w,
        In w (Client.keywordsOf query)
        <-> In w (splitOn Client.isSpace
                    (filter (fun c => negb (Client.isStripped c)) (toLowerCase query)))
            /\ 3 < length w /\ ~ In w Client.stopWords)
  /\ (forall query w,
        In w (Client.keywordsOf query) ->
        3 < length w
        /\ ~ In w Client.stopWords
        /\ Forall (fun c => Client.isSpace c = false) w
        /\ Forall (fun c => Client.isStripped c = false) w
        /\ Forall (fun c => lowerChar c = c) w).
Proof.
  split; [|split; [|split]].
  - intros. apply questionWordsOf_spec.
  - apply questionWordsOf_tokens.
  - intros query w. unfold Client.keywordsOf.
    rewrite filter_In, andb_true_iff, Nat.ltb_lt, negb_true_iff.
    assert (Hstop : existsb (eqStr w) Client.stopWords = false
                    <-> ~ In w Client.stopWords).
    { rewrite <- not_true_iff_false, existsb_exists. split.
      - intros H Hin. apply H. exists w. split; [exact Hin | apply eqStr_refl].
      - intros H (x & Hx & Heq). apply eqStr_true_iff in Heq. now subst. }
    rewrite Hstop. tauto.
  - apply keywordsOf_tokens.
Qed.

Lemma tokenization_filters_witness :
  2 < length (lit "weeks")
  /\ substringOf (lit "weeks") (toLowerCase vacationQuestion)
  /\ Forall (fun c => isWhiteSpace c = false) (lit "weeks")
  /\ Forall (fun c => lowerChar c = c) (lit "weeks").
Proof.
  apply (proj1 (proj2 tokenization_filters) vacationQuestion (lit "weeks")).
  vm_compute. right. right. now left.
Defined.

(** C6 as stated fails: the server keeps the three-letter tokens [the],
    [cat] and [sat] and counts [cat] as a matched keyword; the client does
    not split at a tab. *)
Lemma three_letter_tokens_are_keywords :
  Server.questionWordsOf (toLowerCase (lit "The cat sat"))
  = [lit "the"; lit "cat"; lit "sat"]
  /\ map Server.matchCount (Server.rankedMatches (lit "cat") [handbook]) = [1%Z]
  /\ Client.keywordsOf (lit "income" ++ [ascii_of_nat 9] ++ lit "taxes")
     = [lit "income" ++ [ascii_of_nat 9] ++ lit "taxes"].
Proof.
  split; [reflexivity|]. split; reflexivity.
Qed.

(** C7, as the code has it: the server keeps exactly the sentences with a
    positive score and orders them by score, higher first, then by match
    count, higher first, sentences equal in both staying in their original
    order; the client keeps exactly the chunks with a positive score and
    orders them by score only, chunks of equal score staying in their
    original order. *)
Theorem ranking_order :
  (forall question documents,
     let ranked := Server.rankedMatches question documents in
     let kept := filter (fun m => (0 <? Server.score m)%Z)
                        (Server.scoredSentences question documents) in
     Permutation ranked kept
     /\ StronglySorted Server.ranksBefore ranked
     /\ forall s c,
          filter (fun m => ((Server.score m =? s) && (Server.matchCount m =? c))%Z) ranked
          = filter (fun m => ((Server.score m =? s) && (Server.matchCount m =? c))%Z) kept)
  /\ (forall regExpMatch keywords docs (sc : Client.Document -> str -> Z),
        (forall doc chunk,
           In doc docs -> In chunk (splitBlankLines (Client.content doc)) ->
           Client.scoreChunk regExpMatch keywords (toLowerCase chunk)
           = Ok (sc doc chunk)) ->
        let kept := filter (fun c => (0 <? Client.score c)%Z)
                           (Client.scoredChunks sc docs) in
        exists ranked,
          Client.rankedChunks regExpMatch keywords docs = Ok ranked
          /\ Permutation ranked kept
          /\ StronglySorted (fun a b => (Client.score b <= Client.score a)%Z) ranked
          /\ forall s,
               filter (fun c => (Client.score c =? s)%Z) ranked
               = filter (fun c => (Client.score c =? s)%Z) kept).
Proof.
  split.
  - intros question documents ranked kept. unfold ranked, kept.
    rewrite <- allMatchesOf_scored. split; [|split].
    + apply rankedMatches_perm.
    + apply rankedMatches_sorted.
    + intros s c. apply rankedMatches_stable.
  - intros regExpMatch keywords docs sc H kept.
    exists (sortBy Client.compareChunks kept). split; [|split; [|split]].
    + unfold Client.rankedChunks.
      now rewrite (relevantChunksOf_scored regExpMatch keywords sc docs H).
    + apply sortBy_perm.
    + pose proof (sortBy_sorted Client.compareChunks compareChunks_total
                    compareChunks_trans kept) as Hs.
      induction Hs as [|a l Hl IH Ha]; constructor; [exact IH|].
      eapply Forall_impl; [|exact Ha]. intros b. unfold Client.compareChunks. lia.
    + intros s. apply sortBy_stable. intros a b _ _ Ha Hb.
      apply Z.eqb_eq in Ha, Hb. unfold Client.compareChunks. lia.
Qed.

Lemma ranking_order_witness :
  let kept := filter (fun c => (0 <? Client.score c)%Z)
                (Client.scoredChunks (plainScore (Client.keywordsOf incomeQuery))
                                     [incomeNotes]) in
  exists ranked,
    Client.rankedChunks plainWordRegExp (Client.keywordsOf incomeQuery) [incomeNotes]
    = Ok ranked
    /\ Permutation ranked kept
    /\ StronglySorted (fun a b => (Client.score b <= Client.score a)%Z) ranked
    /\ forall s,
         filter (fun c => (Client.score c =? s)%Z) ranked
         = filter (fun c => (Client.score c =? s)%Z) kept.
Proof.
  apply (proj2 ranking_order plainWordRegExp (Client.keywordsOf incomeQuery)
           [incomeNotes] (plainScore (Client.keywordsOf incomeQuery))).
  intros doc chunk [<- | []] Hchunk. vm_compute in Hchunk.
  destruct Hchunk as [<- | [<- | []]]; reflexivity.
Defined.

(** C7 as stated fails on the client: two chunks have the score 4, the
    first contains one keyword and the second two, and the first stays
    first. *)
Lemma client_ignores_match_count :
  let keywords := Client.keywordsOf incomeQuery in
  Client.rankedChunks plainWordRegExp keywords [incomeNotes]
  = Ok [Client.mkChunk (lit "income income income") 4 (lit "notes.txt");
        Client.mkChunk (lit "income taxes") 4 (lit "notes.txt")]
  /\ Client.keywordHits keywords (lit "income income income") = 1%Z
  /\ Client.keywordHits keywords (lit "income taxes") = 2%Z.
Proof.
  split; [reflexivity|]. split; reflexivity.
Qed.

(** C8: the ranked output is determined by the question and the
    documents. The only step of either engine that the language leaves to
    the implementation is the sort; it has to return the candidates ordered
    by the comparator, with ties in their original order, and the
    comparators of both engines are consistent, so only one order is
    possible. Any two runs of the server's keyword search on the same
    question and documents therefore return the same answer, sources and
    primary document, namely those of [getAnswerFromDocuments]; any two
    runs of the client engine with the same regular-expression matcher
    return the same result or throw the same exception, namely that of
    [findAnswerInDocuments]. *)
Theorem engine_output_deterministic :
  (forall question documents r1 r2,
     Server.fallbackRun question documents r1 ->
     Server.fallbackRun question documents r2 ->
     r1 = r2)
  /\ (forall question documents,
        Server.fallbackRun question documents
          (Server.getAnswerFromDocuments question documents))
  /\ (forall regExpMatch query docs r1 r2,
        Client.clientRun regExpMatch query docs r1 ->
        Client.clientRun regExpMatch query docs r2 ->
        r1 = r2)
  /\ (forall regExpMatch query docs,
        Client.clientRun regExpMatch query docs
          (Client.findAnswerInDocuments regExpMatch query docs)).
Proof.
  split; [|split; [|split]].
  - intros question documents r1 r2 H1 H2.
    apply fallbackRun_iff in H1, H2. congruence.
  - intros. now apply fallbackRun_iff.
  - intros regExpMatch query docs r1 r2 H1 H2.
    apply clientRun_iff in H1, H2. congruence.
  - intros. now apply clientRun_iff.
Qed.

Lemma engine_output_deterministic_witness :
  Server.fallbackRun vacationQuestion [policy; handbook]
    (Server.mkFallbackResult
       (lit "Vacation requests must be submitted 2 weeks in advance")
       [mkSource (lit "policy.txt")
                 (lit "Vacation requests must be submitted 2 weeks in advance")]
       (Some (lit "policy.txt")))
  /\ Client.clientRun plainWordRegExp incomeQuery [incomeNotes]
       (Ok (Client.mkAnswerResult
              (lit "income income income" ++ Client.separator ++ lit "income taxes")
              [mkSource (lit "notes.txt") Client.referenced])).
Proof.
  split.
  - exact (proj1 (proj2 engine_output_deterministic)
             vacationQuestion [policy; handbook]).
  - exact (proj2 (proj2 (proj2 engine_output_deterministic))
             plainWordRegExp incomeQuery [incomeNotes]).
Defined.

End EngineClaims.


(** ** More on the server's document store *)
Module StoreFacts.
Import Js JsFacts ArrayFacts Server ServerFacts.

Lemma findIndex_split {A} (p : A -> bool) l i :
  findIndex p l = Some i ->
  exists before d after,
    l = before ++ d :: after /\ length before = i /\ p d = true
    /\ forall x, In x before -> p x = false.
Proof.
  revert i; induction l as [|y l IH]; intros i; simpl; [discriminate|].
  destruct (p y) eqn:Hy.
  - intros H. injection H as <-. exists [], y, l. repeat split; auto.
    intros x [].
  - destruct (findIndex p l) as [j|]; [|discriminate].
    intros H. injection H as <-.
    destruct (IH j eq_refl) as (before & d & after & -> & <- & Hd & Hb).
    exists (y :: before), d, after. repeat split; auto.
    intros x [<- | Hx]; auto.
Qed.

Lemma findIndex_found {A} (p : A -> bool) l :
  (exists d, In d l /\ p d = true) -> exists i, findIndex p l = Some i.
Proof.
  intros (d & Hd & Hp). destruct (findIndex p l) as [i|] eqn:E; [now exists i|].
  rewrite (proj1 (findIndex_none p l) E d Hd) in Hp. discriminate.
Qed.

Lemma findIndex_last {A} (p : A -> bool) l x :
  (forall y, In y l -> p y = false) -> p x = true ->
  findIndex p (l ++ [x]) = Some (length l).
Proof.
  intros Hl Hx. induction l as [|y l IH]; simpl.
  - now rewrite Hx.
  - rewrite (Hl y) by now left. rewrite IH; [reflexivity|].
    intros z Hz. apply Hl. now right.
Qed.

Lemma splice1_middle {A} (before after : list A) d :
  splice1 (length before) (before ++ d :: after) = before ++ after.
Proof. induction before as [|x before IH]; simpl; [reflexivity | now rewrite IH]. Qed.

Lemma splice1_last {A} (l : list A) x : splice1 (length l) (l ++ [x]) = l.
Proof. rewrite splice1_middle. apply app_nil_r. Qed.

Lemma nth_error_middle {A} (before after : list A) d :
  nth_error (before ++ d :: after) (length before) = Some d.
Proof. induction before as [|x before IH]; simpl; [reflexivity | exact IH]. Qed.

Lemma nth_error_splice1 {A} (l : list A) k i :
  nth_error (splice1 k l) i
  = if i <? k then nth_error l i else nth_error l (S i).
Proof.
  revert k i; induction l as [|x l IH]; intros k i.
  - destruct k, i; simpl; try reflexivity. now destruct (S i <? S k).
  - destruct k as [|k]; [reflexivity|].
    destruct i as [|i]; [reflexivity|].
    change (S i <? S k) with (i <? k). simpl. apply IH.
Qed.

Lemma filter_absent (p : str) (files : list str) :
  existsb (eqStr p) files = false ->
  filter (fun q => negb (eqStr q p)) files = files.
Proof.
  intros H. apply filter_all. intros q Hq. apply negb_true_iff.
  apply eqStr_false_iff. intros ->.
  assert (existsb (eqStr p) files = true); [|congruence].
  apply existsb_exists. exists p. split; [exact Hq | apply eqStr_refl].
Qed.

Lemma deleteDocument_found n unlinkThrows st before d after :
  uploadedDocuments st = before ++ d :: after ->
  id d = n ->
  (forall x, In x before -> id x <> n) ->
  deleteDocument (Some n) unlinkThrows st
  = (mkState (before ++ after)
       (if unlinkThrows then disk st
        else filter (fun p => negb (eqStr p (path d))) (disk st)),
     mkResponse 200 (MessageBody (lit "Document deleted successfully"))).
Proof.
  intros Hdocs Hid Hbefore. unfold deleteDocument. rewrite Hdocs.
  assert (Hfind : findIndex (fun x => (id x =? n)%Z) (before ++ d :: after)
                  = Some (length before)).
  { clear Hdocs. induction before as [|y before IH]; simpl.
    - now rewrite (proj2 (Z.eqb_eq _ _) Hid).
    - rewrite (proj2 (Z.eqb_neq _ _) (Hbefore y (or_introl eq_refl))).
      rewrite IH; [reflexivity|]. intros x Hx. apply Hbefore. now right. }
  rewrite Hfind, splice1_middle, nth_error_middle. f_equal. f_equal.
  destruct unlinkThrows; [now rewrite andb_false_r|]. rewrite andb_true_r.
  destruct (existsb (eqStr (path d)) (disk st)) eqn:E; [reflexivity|].
  symmetry. now apply filter_absent.
Qed.

(** The document at index [i] has an id of at least [i + 1]. *)
Lemma applyOp_ids st op :
  (forall i d, nth_error (uploadedDocuments st) i = Some d ->
               (Z.of_nat i + 1 <= id d)%Z) ->
  forall i d, nth_error (uploadedDocuments (applyOp st op)) i = Some d ->
              (Z.of_nat i + 1 <= id d)%Z.
Proof.
  intros H i d. destruct op as [f c now | docId t]; simpl.
  - intros Hn. destruct (Nat.lt_ge_cases i (length (uploadedDocuments st))) as [Hi | Hi].
    + rewrite nth_error_app1 in Hn by exact Hi. now apply H.
    + rewrite nth_error_app2 in Hn by exact Hi.
      destruct (i - length (uploadedDocuments st)) as [|k] eqn:E.
      * simpl in Hn. injection Hn as <-. simpl. lia.
      * simpl in Hn. now destruct k.
  - unfold deleteDocument.
    destruct (findIndex _ (uploadedDocuments st)) as [k|]; simpl; [|apply H].
    rewrite nth_error_splice1. destruct (i <? k); intros Hn.
    + now apply H.
    + apply H in Hn. lia.
Qed.

Lemma runOps_ids ops st :
  (forall i d, nth_error (uploadedDocuments st) i = Some d ->
               (Z.of_nat i + 1 <= id d)%Z) ->
  forall i d, nth_error (uploadedDocuments (fold_left applyOp ops st)) i = Some d ->
              (Z.of_nat i + 1 <= id d)%Z.
Proof.
  revert st; induction ops as [|op ops IH]; intros st H; simpl; [exact H|].
  apply IH. now apply applyOp_ids.
Qed.

Lemma Subsequence_refl {A} (l : list A) : Subsequence l l.
Proof. induction l; [apply SubNil | now apply SubKeep]. Qed.

Lemma Subsequence_trans {A} (l1 l2 l3 : list A) :
  Subsequence l1 l2 -> Subsequence l2 l3 -> Subsequence l1 l3.
Proof.
  intros H12 H23. revert l1 H12.
  induction H23 as [|x l2 l3 H IH|x l2 l3 H IH]; intros l1 H12.
  - exact H12.
  - apply SubSkip. now apply IH.
  - inversion H12; subst; [apply SubSkip | apply SubKeep]; now apply IH.
Qed.

Lemma Subsequence_app {A} (l1 l2 k : list A) :
  Subsequence l1 l2 -> Subsequence (l1 ++ k) (l2 ++ k).
Proof.
  induction 1; simpl;
    [apply Subsequence_refl | now apply SubSkip | now apply SubKeep].
Qed.

Lemma Subsequence_map {A B} (f : A -> B) l1 l2 :
  Subsequence l1 l2 -> Subsequence (map f l1) (map f l2).
Proof.
  induction 1; simpl; [apply SubNil | now apply SubSkip | now apply SubKeep].
Qed.

Lemma Subsequence_splice1 {A} k (l : list A) : Subsequence (splice1 k l) l.
Proof.
  revert k; induction l as [|x l IH]; intros k.
  - destruct k; apply SubNil.
  - destruct k as [|k]; simpl.
    + apply SubSkip, Subsequence_refl.
    + apply SubKeep, IH.
Qed.

Lemma Subsequence_In {A} (l1 l2 : list A) x :
  Subsequence l1 l2 -> In x l1 -> In x l2.
Proof.
  induction 1; simpl; intros Hx; auto.
  destruct Hx as [<- | Hx]; auto.
Qed.

Lemma applyOp_facts op st :
  Subsequence (map uploadedFacts (uploadedDocuments (applyOp st op)))
              (map uploadedFacts (uploadedDocuments st) ++ uploadsOf [op]).
Proof.
  destruct op as [f c now | docId t]; simpl.
  - rewrite map_app. apply Subsequence_refl.
  - rewrite app_nil_r. apply Subsequence_map. unfold deleteDocument.
    destruct (findIndex _ _); simpl;
      [apply Subsequence_splice1 | apply Subsequence_refl].
Qed.

Lemma runOps_facts ops st :
  Subsequence (map uploadedFacts (uploadedDocuments (fold_left applyOp ops st)))
              (map uploadedFacts (uploadedDocuments st) ++ uploadsOf ops).
Proof.
  revert st; induction ops as [|op ops IH]; intros st; simpl fold_left.
  - simpl. rewrite app_nil_r. apply Subsequence_refl.
  - eapply Subsequence_trans; [apply IH|].
    assert (Hcons : uploadsOf (op :: ops) = uploadsOf [op] ++ uploadsOf ops).
    { unfold uploadsOf. simpl. now rewrite app_nil_r. }
    rewrite Hcons, app_assoc. apply Subsequence_app, applyOp_facts.
Qed.

End StoreFacts.

Module StoreExtras.
Import Js JsFacts ArrayFacts Examples.
Import ServerFacts StoreFacts.

(** X1: deleting an id that some stored document has answers 200 and
    removes exactly the first document with that id; every other document
    stays, in order. The file of the removed document is taken off the disk
    unless removing it fails, in which case the disk is left as it is. *)
Theorem delete_removes_first_with_id n unlinkThrows st :
  (exists d, In d (Server.uploadedDocuments st) /\ Server.id d = n) ->
  exists before d after,
    Server.uploadedDocuments st = before ++ d :: after
    /\ Server.id d = n
    /\ (forall x, In x before -> Server.id x <> n)
    /\ Server.deleteDocument (Some n) unlinkThrows st
       = (Server.mkState (before ++ after)
            (if unlinkThrows then Server.disk st
             else filter (fun p => negb (eqStr p (Server.path d))) (Server.disk st)),
          Server.mkResponse 200
            (Server.MessageBody (lit "Document deleted successfully"))).
Proof.
  intros (d0 & Hin & Hid).
  destruct (findIndex_found (fun x => (Server.id x =? n)%Z)
              (Server.uploadedDocuments st)) as [i Hi].
  { exists d0. split; [exact Hin | now apply Z.eqb_eq]. }
  apply findIndex_split in Hi as (before & d & after & Hdocs & _ & Hd & Hb).
  apply Z.eqb_eq in Hd.
  assert (Hb' : forall x, In x before -> Server.id x <> n).
  { intros x Hx. apply Z.eqb_neq. now apply Hb. }
  exists before, d, after. repeat split; try assumption.
  now apply deleteDocument_found.
Qed.

Lemma delete_removes_first_with_id_witness :
  exists before d after,
    Server.uploadedDocuments policyStore = before ++ d :: after
    /\ Server.id d = 2%Z
    /\ (forall x, In x before -> Server.id x <> 2%Z)
    /\ Server.deleteDocument (Some 2%Z) false policyStore
       = (Server.mkState (before ++ after)
            (filter (fun p => negb (eqStr p (Server.path d))) (Server.disk policyStore)),
          Server.mkResponse 200
            (Server.MessageBody (lit "Document deleted successfully"))).
Proof.
  apply (delete_removes_first_with_id 2%Z false policyStore).
  exists handbook. split; [right; now left | reflexivity].
Defined.

(** X2: the store never reorders, changes or invents documents: after any
    sequence of uploads and deletions, the names, contents and upload times
    of the stored documents are those of the uploads, in upload order, with
    some left out. *)
Theorem store_keeps_upload_order (ops : list Server.StoreOp) :
  Subsequence (map Server.uploadedFacts (Server.uploadedDocuments (Server.runOps ops)))
              (Server.uploadsOf ops).
Proof. exact (runOps_facts ops Server.initialState). Qed.

(** X3: when no stored document has the id that the next upload gets, an
    upload followed by the deletion of the id it returned leaves the list
    of documents as it was. *)
Theorem upload_then_delete_restores f fileContent now unlinkThrows st :
  (forall d, In d (Server.uploadedDocuments st) ->
             Server.id d <> (Z.of_nat (length (Server.uploadedDocuments st)) + 1)%Z) ->
  exists doc,
    snd (Server.uploadDocument (Some f) fileContent now st)
    = Server.mkResponse 200
        (Server.UploadBody (lit "File uploaded successfully") doc)
    /\ Server.uploadedDocuments
         (fst (Server.deleteDocument (Some (Server.id doc)) unlinkThrows
                 (fst (Server.uploadDocument (Some f) fileContent now st))))
       = Server.uploadedDocuments st.
Proof.
  intros Hfresh. eexists. split; [reflexivity|]. cbn [Server.id].
  erewrite (deleteDocument_found _ unlinkThrows _ (Server.uploadedDocuments st) _ []);
    [| reflexivity | reflexivity | exact Hfresh].
  cbn [fst Server.uploadedDocuments]. apply app_nil_r.
Qed.

Lemma upload_then_delete_restores_witness :
  exists doc,
    snd (Server.uploadDocument (Some (fileNamed "notes.txt")) (lit "text") 5 policyStore)
    = Server.mkResponse 200
        (Server.UploadBody (lit "File uploaded successfully") doc)
    /\ Server.uploadedDocuments
         (fst (Server.deleteDocument (Some (Server.id doc)) false
                 (fst (Server.uploadDocument (Some (fileNamed "notes.txt"))
                         (lit "text") 5 policyStore))))
       = Server.uploadedDocuments policyStore.
Proof.
  apply (upload_then_delete_restores (fileNamed "notes.txt") (lit "text") 5 false
           policyStore).
  intros d [<- | [<- | []]]; discriminate.
Defined.

(** X4: in every store reached by uploads and deletions, the document at
    index [i] has an id of at least [i + 1]; so every id is positive, and a
    deletion whose id is not a number, zero or negative always answers 404
    and changes nothing. *)
Theorem stored_ids_are_positive (ops : list Server.StoreOp) :
  let st := Server.runOps ops in
  (forall i d, nth_error (Server.uploadedDocuments st) i = Some d ->
               (Z.of_nat i + 1 <= Server.id d)%Z)
  /\ (forall docId unlinkThrows,
        (forall n, docId = Some n -> (n <= 0)%Z) ->
        Server.deleteDocument docId unlinkThrows st
        = (st, Server.mkResponse 404 (Server.ErrorBody (lit "Document not found")))).
Proof.
  intros st.
  assert (Hids : forall i d, nth_error (Server.uploadedDocuments st) i = Some d ->
                             (Z.of_nat i + 1 <= Server.id d)%Z).
  { apply runOps_ids. intros i d H. now destruct i. }
  split; [exact Hids|].
  intros docId unlinkThrows Hn. apply deleteDocument_unknown.
  intros d Hd Heq. apply In_nth_error in Hd as [i Hi].
  specialize (Hids i d Hi). specialize (Hn _ (eq_sym Heq)). lia.
Qed.

Lemma stored_ids_are_positive_witness :
  Server.deleteDocument (Some 0%Z) false (Server.runOps uploadDeleteUpload)
  = (Server.runOps uploadDeleteUpload,
     Server.mkResponse 404 (Server.ErrorBody (lit "Document not found"))).
Proof.
  apply (proj2 (stored_ids_are_positive uploadDeleteUpload)).
  intros n H. injection H as <-. lia.
Defined.

End StoreExtras.

(** ** More on the keyword search of the server *)
Module FallbackFacts.
Import Js JsFacts ArrayFacts Server ServerFacts.

Lemma trimStart_clean s : startsClean (trimStart s).
Proof.
  induction s as [|c s IH]; simpl; [exact I|].
  destruct (isWhiteSpace c) eqn:E; [exact IH | exact E].
Qed.

Lemma trimStart_id s : startsClean s -> trimStart s = s.
Proof. destruct s as [|c s]; simpl; [reflexivity | now intros ->]. Qed.

Lemma trimStart_nil_iff s :
  trimStart s = [] <-> Forall (fun c => isWhiteSpace c = true) s.
Proof.
  induction s as [|c s IH]; simpl.
  - split; [constructor | reflexivity].
  - destruct (isWhiteSpace c) eqn:E.
    + rewrite IH. split; [now constructor | now inversion 1].
    + split; [discriminate | inversion 1; congruence].
Qed.

Lemma trimEnd_clean s : startsClean s -> startsClean (trimEnd s).
Proof.
  intros H. destruct (trimEnd_prefix s) as [post Heq].
  destruct (trimEnd s) as [|c t]; [exact I|].
  rewrite Heq in H. exact H.
Qed.

Lemma trimEnd_id s : startsClean (rev s) -> trimEnd s = s.
Proof.
  intros H. unfold trimEnd. rewrite trimStart_id by exact H. apply rev_involutive.
Qed.

Lemma trim_idempotent s : trim (trim s) = trim s.
Proof.
  unfold trim.
  assert (Hc : startsClean (trimEnd (trimStart s)))
    by apply trimEnd_clean, trimStart_clean.
  rewrite (trimStart_id _ Hc). apply trimEnd_id.
  unfold trimEnd. rewrite rev_involutive. apply trimStart_clean.
Qed.

Lemma trim_clean s : startsClean (trim s).
Proof. apply trimEnd_clean, trimStart_clean. Qed.

Lemma trim_nil_iff s :
  trim s = [] <-> Forall (fun c => isWhiteSpace c = true) s.
Proof.
  unfold trim, trimEnd. rewrite <- trimStart_nil_iff. split.
  - intros H. apply (f_equal (@rev ascii)) in H. rewrite rev_involutive in H.
    simpl in H. apply trimStart_nil_iff in H. apply Forall_rev in H.
    rewrite rev_involutive in H.
    pose proof (trimStart_clean s) as Hc.
    destruct (trimStart s) as [|c t]; [reflexivity|].
    inversion H; subst. simpl in Hc. congruence.
  - intros ->. reflexivity.
Qed.

Lemma Forall_substringOf (P : ascii -> Prop) a b :
  substringOf a b -> Forall P b -> Forall P a.
Proof.
  intros (pre & post & ->) H. apply Forall_app in H as [_ H].
  now apply Forall_app in H as [H _].
Qed.

(** A sentence of a document: trimmed, longer than 20 characters, without
    sentence punctuation, and part of the text. *)
Lemma sentencesOf_shape text sentence :
  In sentence (sentencesOf text) ->
  20 < length sentence
  /\ trim sentence = sentence
  /\ Forall (fun c => isSentenceEnd c = false) sentence
  /\ substringOf sentence text.
Proof.
  intros H. pose proof (sentencesOf_substring _ _ H) as Hsub.
  unfold sentencesOf in H. apply filter_In in H as [H Hlen].
  apply Nat.ltb_lt in Hlen.
  apply in_map_iff in H as (piece & <- & Hpiece).
  pose proof (splitRuns_pieces isSentenceEnd text) as Hall.
  rewrite Forall_forall in Hall. destruct (Hall _ Hpiece) as [_ Hsep].
  repeat split; try assumption.
  - apply trim_idempotent.
  - eapply Forall_substringOf; [apply trim_substringOf | exact Hsep].
Qed.

Lemma firstn_clean n s : startsClean s -> startsClean (firstn n s).
Proof. destruct n, s; simpl; auto. Qed.

Lemma excerpt_shape text sentence n :
  In sentence (sentencesOf text) -> 20 < n ->
  let e := substring 0 n (trim sentence) in
  e = firstn n sentence
  /\ 20 < length e <= n
  /\ startsClean e
  /\ Forall (fun c => isSentenceEnd c = false) e
  /\ substringOf e text.
Proof.
  intros H Hn e. destruct (sentencesOf_shape _ _ H) as (Hlen & Htrim & Hsep & Hsub).
  assert (He : e = firstn n sentence).
  { unfold e. now rewrite Htrim, substring_from_0. }
  split; [exact He|]. rewrite He. repeat split.
  - rewrite length_firstn. apply Nat.min_glb_lt; assumption.
  - apply firstn_le_length.
  - apply firstn_clean. rewrite <- Htrim. apply trim_clean.
  - eapply Forall_substringOf; [|exact Hsep].
    exists [], (skipn n sentence). simpl. now rewrite firstn_skipn.
  - eapply substringOf_trans; [|exact Hsub].
    exists [], (skipn n sentence). simpl. now rewrite firstn_skipn.
Qed.

Lemma count_words_fold (sentenceLower : str) words (sc mc : Z) :
  fold_left (fun (acc : Z * Z) word =>
               if includes sentenceLower word
               then (fst acc + 3, snd acc + 1)%Z else acc)
            words (sc, mc)
  = ((sc + 3 * Z.of_nat (length (filter (fun w => includes sentenceLower w) words)))%Z,
     (mc + Z.of_nat (length (filter (fun w => includes sentenceLower w) words)))%Z).
Proof.
  revert sc mc; induction words as [|w words IH]; intros sc mc;
    cbn [fold_left filter].
  - cbn [length]. f_equal; lia.
  - destruct (includes sentenceLower w); rewrite IH; [|reflexivity].
    cbn [fst snd length]. rewrite Nat2Z.inj_succ. f_equal; lia.
Qed.

Lemma wordsFound_bounds questionWords sentence :
  (0 <= wordsFound questionWords sentence <= Z.of_nat (length questionWords))%Z.
Proof.
  unfold wordsFound.
  pose proof (filter_length_le (fun w => includes (toLowerCase sentence) w)
                questionWords). lia.
Qed.

(** The loop over the question words in closed form. *)
Lemma scoreSentence_closed questionLower questionWords sentence :
  scoreSentence questionLower questionWords sentence
  = ((5 * wordsFound questionWords sentence
      + if includes (toLowerCase sentence) (questionPhraseOf questionLower)
        then 10 else 0)%Z,
     wordsFound questionWords sentence).
Proof.
  unfold scoreSentence. rewrite count_words_fold.
  fold (wordsFound questionWords sentence).
  pose proof (wordsFound_bounds questionWords sentence) as Hb.
  destruct (includes (toLowerCase sentence) (questionPhraseOf questionLower));
    destruct (Z.ltb_spec 0 (0 + wordsFound questionWords sentence));
    f_equal; lia.
Qed.

Lemma wordsFound_positive questionWords sentence :
  (0 <? wordsFound questionWords sentence)%Z
  = existsb (fun w => includes (toLowerCase sentence) w) questionWords.
Proof.
  unfold wordsFound. induction questionWords as [|w ws IH]; simpl; [reflexivity|].
  destruct (includes (toLowerCase sentence) w); simpl; [|exact IH].
  apply Z.ltb_lt. lia.
Qed.

Lemma matchOf_positive question doc sentence :
  (0 <? score (matchOf (toLowerCase question)
                       (questionWordsOf (toLowerCase question)) doc sentence))%Z
  = sentenceQualifies question sentence.
Proof.
  unfold matchOf, sentenceQualifies. cbn [score].
  rewrite scoreSentence_closed. cbn [fst].
  rewrite <- wordsFound_positive.
  pose proof (wordsFound_bounds (questionWordsOf (toLowerCase question)) sentence).
  set (h := wordsFound (questionWordsOf (toLowerCase question)) sentence) in *.
  destruct (includes _ (questionPhraseOf _)); cbv iota;
    destruct (Z.ltb_spec 0 h); [destruct (Z.ltb_spec 0 (5 * h + 10))
                               |destruct (Z.ltb_spec 0 (5 * h + 10))
                               |destruct (Z.ltb_spec 0 (5 * h + 0))
                               |destruct (Z.ltb_spec 0 (5 * h + 0))];
    cbn [orb]; try reflexivity; lia.
Qed.

Lemma allMatchesOf_unfold question documents m :
  In m (allMatchesOf question documents)
  <-> exists doc sentence,
        In doc documents /\ In sentence (sentencesOf (content doc))
        /\ sentenceQualifies question sentence = true
        /\ m = matchOf (toLowerCase question)
                       (questionWordsOf (toLowerCase question)) doc sentence.
Proof.
  rewrite allMatchesOf_scored, filter_In. unfold scoredSentences.
  rewrite in_flat_map. split.
  - intros [(doc & Hdoc & Hm) Hpos]. apply in_map_iff in Hm as (sentence & <- & Hs).
    rewrite matchOf_positive in Hpos. now exists doc, sentence.
  - intros (doc & sentence & Hdoc & Hs & Hq & ->). split.
    + exists doc. split; [exact Hdoc|]. apply in_map_iff. now exists sentence.
    + now rewrite matchOf_positive.
Qed.

Lemma rankedMatches_In question documents m :
  In m (rankedMatches question documents) <-> In m (allMatchesOf question documents).
Proof. apply sortBy_In. Qed.

End FallbackFacts.

Module FallbackExtras.
Import Js JsFacts ArrayFacts Examples.
Import ServerFacts FallbackFacts.

(** X5: the loop over the question words in closed form. Every ranked match
    comes from a sentence of a stored document; its match count is the
    number of question words (with repetitions) that the lower-cased
    sentence contains, and its score is five times the match count, plus
    ten when the sentence contains the first 15 characters of the
    lower-cased question. So the score is positive and at most five times
    the number of question words plus ten. *)
Theorem match_score_formula question documents m :
  In m (Server.rankedMatches question documents) ->
  let questionLower := toLowerCase question in
  let questionWords := Server.questionWordsOf questionLower in
  exists doc sentence,
    In doc documents
    /\ In sentence (Server.sentencesOf (Server.content doc))
    /\ Server.matchDocument m = Server.name doc
    /\ Server.matchCount m = Server.wordsFound questionWords sentence
    /\ Server.score m
       = (5 * Server.matchCount m
          + if includes (toLowerCase sentence) (Server.questionPhraseOf questionLower)
            then 10 else 0)%Z
    /\ (0 <= Server.matchCount m <= Z.of_nat (length questionWords))%Z
    /\ (0 < Server.score m <= 5 * Z.of_nat (length questionWords) + 10)%Z.
Proof.
  intros H questionLower questionWords.
  apply rankedMatches_In, allMatchesOf_unfold in H
    as (doc & sentence & Hdoc & Hs & Hq & ->).
  exists doc, sentence.
  pose proof (matchOf_positive question doc sentence) as Hpos.
  rewrite Hq in Hpos. apply Z.ltb_lt in Hpos. revert Hpos.
  unfold Server.matchOf. cbn [Server.score Server.matchCount Server.matchDocument].
  rewrite scoreSentence_closed. cbn [fst snd]. fold questionLower questionWords.
  pose proof (wordsFound_bounds questionWords sentence) as Hb.
  intros Hpos. repeat split; try assumption; try lia.
  destruct (includes _ _); lia.
Qed.

Lemma match_score_formula_witness :
  exists doc sentence,
    In doc [handbook]
    /\ In sentence (Server.sentencesOf (Server.content doc))
    /\ lit "handbook.txt" = Server.name doc
    /\ 1%Z = Server.wordsFound (Server.questionWordsOf (toLowerCase (lit "cat"))) sentence
    /\ 15%Z
       = (5 * 1
          + if includes (toLowerCase sentence)
                        (Server.questionPhraseOf (toLowerCase (lit "cat")))
            then 10 else 0)%Z
    /\ (0 <= 1 <= Z.of_nat (length (Server.questionWordsOf (toLowerCase (lit "cat")))))%Z
    /\ (0 < 15
        <= 5 * Z.of_nat (length (Server.questionWordsOf (toLowerCase (lit "cat")))) + 10)%Z.
Proof.
  apply (match_score_formula (lit "cat") [handbook]
           (Server.mkMatch (lit "handbook.txt") (lit "The cat sat on the mat today")
                           15 1)).
  vm_compute. now left.
Defined.

(** X6: the keyword search keeps a sentence exactly when its lower-cased
    text contains a question word or the first 15 characters of the
    lower-cased question; it lists no source exactly when no sentence of any
    document does. *)
Theorem sentence_kept_iff_qualifies question documents :
  (forall doc sentence,
     In doc documents -> In sentence (Server.sentencesOf (Server.content doc)) ->
     (In (Server.matchOf (toLowerCase question)
            (Server.questionWordsOf (toLowerCase question)) doc sentence)
         (Server.rankedMatches question documents)
      <-> Server.sentenceQualifies question sentence = true))
  /\ (Server.sources (Server.getAnswerFromDocuments question documents) = []
      <-> forall doc sentence,
            In doc documents -> In sentence (Server.sentencesOf (Server.content doc)) ->
            Server.sentenceQualifies question sentence = false).
Proof.
  split.
  - intros doc sentence Hdoc Hs. rewrite rankedMatches_In, allMatchesOf_unfold.
    split.
    + intros (doc' & sentence' & _ & _ & Hq & Heq).
      rewrite <- matchOf_positive with (doc := doc), Heq.
      now rewrite matchOf_positive.
    + intros Hq. now exists doc, sentence.
  - rewrite getAnswerFromDocuments_sources. split.
    + intros Hnil doc sentence Hdoc Hs.
      destruct (Server.sentenceQualifies question sentence) eqn:Hq; [|reflexivity].
      assert (Hin : In (Server.matchOf (toLowerCase question)
                          (Server.questionWordsOf (toLowerCase question)) doc sentence)
                       (Server.rankedMatches question documents)).
      { apply rankedMatches_In, allMatchesOf_unfold. now exists doc, sentence. }
      destruct (Server.rankedMatches question documents); [destruct Hin | discriminate].
    + intros Hnone.
      destruct (Server.rankedMatches question documents) as [|m rest] eqn:E;
        [reflexivity|].
      assert (Hin : In m (Server.rankedMatches question documents))
        by (rewrite E; now left).
      apply rankedMatches_In, allMatchesOf_unfold in Hin
        as (doc & sentence & Hdoc & Hs & Hq & _).
      rewrite (Hnone doc sentence Hdoc Hs) in Hq. discriminate.
Qed.

Lemma sentence_kept_iff_qualifies_witness :
  Server.sources (Server.getAnswerFromDocuments (lit "budget") [handbook]) = [].
Proof.
  apply (proj2 (sentence_kept_iff_qualifies (lit "budget") [handbook])).
  intros doc sentence [<- | []] Hs. vm_compute in Hs.
  destruct Hs as [<- | []]. reflexivity.
Defined.

(** X7: the answer of the keyword search is the excerpt of its first
    source, which is the match that no other match beats: no match has a
    higher score, and none with the same score has a higher match count.
    With no match, the answer is the not-found text, with no sources and no
    primary document. *)
Theorem fallback_answer_is_best_match question documents :
  let r := Server.getAnswerFromDocuments question documents in
  match Server.rankedMatches question documents with
  | [] => r = Server.mkFallbackResult Server.notFoundAnswer [] None
  | best :: _ =>
      Server.answer r = Server.matchExcerpt best
      /\ Server.primaryDocument r = Some (Server.matchDocument best)
      /\ (exists more, Server.sources r = Server.sourceOfMatch best :: more)
      /\ forall m, In m (Server.allMatchesOf question documents) ->
           (Server.score m <= Server.score best)%Z
           /\ (Server.score m = Server.score best ->
               (Server.matchCount m <= Server.matchCount best)%Z)
  end.
Proof.
  intros r. unfold r. rewrite getAnswerFromDocuments_ranked.
  pose proof (rankedMatches_sorted question documents) as Hs.
  pose proof (rankedMatches_In question documents) as Hin.
  destruct (Server.rankedMatches question documents) as [|best rest];
    [reflexivity|].
  cbn [Server.answer Server.primaryDocument Server.sources].
  split; [reflexivity|]. split; [reflexivity|]. split.
  - exists (map Server.sourceOfMatch (firstn 2 rest)). reflexivity.
  - intros m Hm. apply Hin in Hm as [<- | Hm]; [lia|].
    inversion Hs as [|? ? _ Hall]; subst. rewrite Forall_forall in Hall.
    specialize (Hall m Hm). unfold Server.ranksBefore in Hall. lia.
Qed.

(** X8: every excerpt of the keyword search has between 21 and 300
    characters, starts with no white space and contains none of the
    characters [.], [!] and [?]; the answer is never the empty string. *)
Theorem fallback_excerpt_shape question documents :
  let r := Server.getAnswerFromDocuments question documents in
  (forall s, In s (Server.sources r) ->
     20 < length (excerpt s) <= 300
     /\ startsClean (excerpt s)
     /\ Forall (fun c => Server.isSentenceEnd c = false) (excerpt s))
  /\ Server.answer r <> [].
Proof.
  intros r.
  assert (Hm : forall m, In m (Server.rankedMatches question documents) ->
                 20 < length (Server.matchExcerpt m) <= 300
                 /\ startsClean (Server.matchExcerpt m)
                 /\ Forall (fun c => Server.isSentenceEnd c = false)
                           (Server.matchExcerpt m)).
  { intros m H. apply rankedMatches_In, allMatchesOf_origin in H
      as (doc & sentence & _ & Hs & _ & ->).
    assert (H300 : 20 < 300) by lia.
    destruct (excerpt_shape _ _ 300 Hs H300) as (_ & Hl & Hc & Hp & _).
    repeat split; try assumption; apply Hl. }
  split.
  - intros s Hs. unfold r in Hs. rewrite getAnswerFromDocuments_sources in Hs.
    apply in_map_iff in Hs as (m & <- & Hin). apply slice0_In in Hin.
    now apply Hm.
  - unfold r. rewrite getAnswerFromDocuments_ranked.
    destruct (Server.rankedMatches question documents) as [|best rest] eqn:E.
    + discriminate.
    + cbn [Server.answer]. destruct (Hm best (or_introl eq_refl)) as ((Hl & _) & _).
      intros Heq. rewrite Heq in Hl. simpl in Hl. lia.
Qed.

Lemma fallback_excerpt_shape_witness :
  20 < length (lit "The cat sat on the mat today") <= 300
  /\ startsClean (lit "The cat sat on the mat today")
  /\ Forall (fun c => Server.isSentenceEnd c = false)
            (lit "The cat sat on the mat today").
Proof.
  apply (proj1 (fallback_excerpt_shape (lit "cat") [handbook])
           (mkSource (lit "handbook.txt") (lit "The cat sat on the mat today"))).
  now left.
Defined.

End FallbackExtras.

(** ** More on the model path of [/api/ask] *)
Module ModelPathFacts.
Import Js JsFacts ArrayFacts Server ServerFacts FallbackFacts.

Lemma foldM_invariant {A B} (P : B -> Prop) (step : B -> A -> Outcome B) l acc r :
  (forall b a b', In a l -> P b -> step b a = Ok b' -> P b') ->
  P acc -> foldM step acc l = Ok r -> P r.
Proof.
  revert acc; induction l as [|x l IH]; intros acc Hstep Hacc; cbn [foldM].
  - intros H. injection H as <-. exact Hacc.
  - destruct (step acc x) as [acc'|] eqn:E; cbn [bind]; [|discriminate].
    apply IH.
    + intros b a b' Ha. apply Hstep. now right.
    + apply (Hstep acc x acc'); [now left | exact Hacc | exact E].
Qed.

Lemma mapSet_keys_In {A} k (v : A) m x :
  In x (map fst (mapSet k v m)) -> In x (map fst m) \/ x = k.
Proof.
  induction m as [|[k' v'] m IH]; simpl.
  - intros [<- | []]. now right.
  - destruct (eqStr k' k); simpl; [tauto|].
    intros [<- | H]; [now left; left|]. destruct (IH H); tauto.
Qed.

Lemma mapSet_NoDup {A} k (v : A) m :
  NoDup (map fst m) -> NoDup (map fst (mapSet k v m)).
Proof.
  induction m as [|[k' v'] m IH]; simpl; intros H.
  - constructor; [intros [] | constructor].
  - destruct (eqStr k' k) eqn:E; simpl; [exact H|].
    inversion H as [|? ? Hnot Hm]; subst. constructor; [|now apply IH].
    intros Hin. apply mapSet_keys_In in Hin as [Hin | ->]; [now apply Hnot|].
    rewrite eqStr_refl in E. discriminate.
Qed.

Lemma mapSet_Forall {A} (P : str * A -> Prop) k (v : A) m :
  Forall P m -> P (k, v) -> Forall P (mapSet k v m).
Proof.
  induction m as [|[k' v'] m IH]; simpl; intros Hm Hkv.
  - now constructor.
  - inversion Hm; subst. destruct (eqStr k' k) eqn:E.
    + apply eqStr_true_iff in E. subst. now constructor.
    + constructor; [assumption | now apply IH].
Qed.

Lemma objSet_Forall {A} (P : str * A -> Prop) k (v : A) o :
  Forall P o -> P (k, v) -> Forall P (objSet k v o).
Proof.
  unfold objSet. destruct (eqStr k protoKey); [tauto | apply mapSet_Forall].
Qed.

Lemma objEntries_In {A} (o : list (str * A)) x : In x (objEntries o) -> In x o.
Proof.
  unfold objEntries. intros H. apply in_app_or in H as [H | H].
  - apply in_map_iff in H as ([n kv] & <- & H). simpl.
    apply (proj1 (sortBy_In _ _ _)) in H. apply in_flat_map in H as (y & Hy & H).
    destruct (arrayIndex (fst y)); [|destruct H].
    destruct H as [H | []]. injection H as _ <-. exact Hy.
  - now apply filter_In in H.
Qed.

Lemma mentionedSources_entries modelAnswer documents :
  Forall (entryOf documents) (mentionedSources modelAnswer documents)
  /\ NoDup (map fst (mentionedSources modelAnswer documents)).
Proof.
  unfold mentionedSources.
  assert (H : forall l acc,
             incl l documents ->
             Forall (entryOf documents) acc /\ NoDup (map fst acc) ->
             let r := fold_left
               (fun sourceSet doc =>
                  if includes (toLowerCase modelAnswer) (toLowerCase (name doc))
                     || includes (toLowerCase modelAnswer)
                          (toLowerCase (hd [] (splitOn isDot (name doc))))
                  then mapSet (name doc) (mkSourceEntry (name doc) doc true) sourceSet
                  else sourceSet) l acc in
             Forall (entryOf documents) r /\ NoDup (map fst r)).
  { induction l as [|doc l IH]; intros acc Hl Hacc; simpl; [exact Hacc|].
    apply IH; [intros x Hx; apply Hl; now right|].
    destruct (_ || _); [|exact Hacc]. destruct Hacc as [Hf Hn]. split.
    - apply mapSet_Forall; [exact Hf|]. split; [|reflexivity].
      apply Hl. now left.
    - now apply mapSet_NoDup. }
  apply H; [apply incl_refl|]. split; constructor.
Qed.

Lemma filter_none {A} (l : list A) : filter (fun _ => false) l = [].
Proof. induction l; simpl; auto. Qed.

Lemma relevantSentencesOf_no_words doc : relevantSentencesOf [] doc = [].
Proof. unfold relevantSentencesOf. simpl. now rewrite filter_none. Qed.

Lemma modelSourcesOf_from questionWords sourceSet (acc : list Source) :
  fold_left (fun acc e =>
               match relevantSentencesOf questionWords (entryDoc (snd e)) with
               | best :: _ =>
                   acc ++ [mkSource (fst e) (substring 0 250 (trim best))]
               | [] => acc
               end)
            sourceSet acc
  = acc ++ flat_map (fun e =>
                match relevantSentencesOf questionWords (entryDoc (snd e)) with
                | best :: _ => [mkSource (fst e) (substring 0 250 (trim best))]
                | [] => []
                end) sourceSet.
Proof.
  revert acc; induction sourceSet as [|e ss IH]; intros acc; simpl.
  - now rewrite app_nil_r.
  - rewrite IH. destruct (relevantSentencesOf _ _); [reflexivity|].
    now rewrite <- app_assoc.
Qed.

Lemma modelSourcesOf_flat questionWords sourceSet :
  modelSourcesOf questionWords sourceSet
  = flat_map (fun e =>
                match relevantSentencesOf questionWords (entryDoc (snd e)) with
                | best :: _ => [mkSource (fst e) (substring 0 250 (trim best))]
                | [] => []
                end) sourceSet.
Proof. unfold modelSourcesOf. now rewrite modelSourcesOf_from. Qed.

Lemma modelSourcesOf_no_words sourceSet : modelSourcesOf [] sourceSet = [].
Proof.
  rewrite modelSourcesOf_flat. induction sourceSet as [|e ss IH]; simpl;
    [reflexivity|]. now rewrite relevantSentencesOf_no_words.
Qed.

Lemma modelSourcesOf_NoDup questionWords sourceSet :
  NoDup (map fst sourceSet) ->
  NoDup (map document (modelSourcesOf questionWords sourceSet)).
Proof.
  rewrite modelSourcesOf_flat.
  induction sourceSet as [|e ss IH]; simpl; intros H; [constructor|].
  inversion H as [|? ? Hnot Hss]; subst.
  destruct (relevantSentencesOf _ _) as [|best rest]; simpl; [now apply IH|].
  constructor; [|now apply IH]. intros Hin. apply Hnot.
  apply in_map_iff in Hin as (src & Hs & Hin).
  apply in_flat_map in Hin as (e' & He' & Hin).
  destruct (relevantSentencesOf _ _) as [|best' rest']; [destruct Hin|].
  destruct Hin as [<- | []]. simpl in Hs. rewrite <- Hs.
  apply in_map_iff. now exists e'.
Qed.

Lemma slice0_NoDup {A} n (l : list A) : NoDup l -> NoDup (slice0 n l).
Proof.
  intros H. rewrite <- (firstn_skipn n l) in H.
  now apply NoDup_app_remove_r in H.
Qed.

Section WithRegExp.
Variable regExpMatch : RegExpMatch.

Lemma documentScoresOf_entries questionWords documents scores :
  documentScoresOf regExpMatch questionWords documents = Ok scores ->
  Forall (scoreEntryOf documents) scores.
Proof.
  unfold documentScoresOf. apply foldM_invariant; [|constructor].
  intros acc doc acc' Hdoc Hacc.
  destruct (documentScore regExpMatch questionWords doc) as [sc|]; cbn [bind];
    [|discriminate].
  destruct (0 <? sc)%Z; intros H; injection H as <-; [|exact Hacc].
  apply objSet_Forall; [exact Hacc|]. now split.
Qed.

Lemma documentScoresOf_no_words documents :
  documentScoresOf regExpMatch [] documents = Ok [].
Proof.
  unfold documentScoresOf. generalize (@nil (str * (Z * Document))) as acc.
  induction documents as [|doc docs IH]; intros acc; cbn [foldM]; [reflexivity|].
  cbn. apply IH.
Qed.

Lemma sourceSetOf_entries modelAnswer questionWords documents sourceSet :
  sourceSetOf regExpMatch modelAnswer questionWords documents = Ok sourceSet ->
  Forall (entryOf documents) sourceSet /\ NoDup (map fst sourceSet).
Proof.
  unfold sourceSetOf.
  pose proof (mentionedSources_entries modelAnswer documents) as Hm.
  destruct (length (mentionedSources modelAnswer documents) =? 0).
  - destruct (documentScoresOf _ _ _) as [scores|] eqn:E; cbn [bind]; [|discriminate].
    apply documentScoresOf_entries in E.
    assert (Hsorted : Forall (scoreEntryOf documents)
                        (slice0 3 (sortBy compareDocumentScores (objEntries scores)))).
    { apply Forall_forall. intros x Hx. apply slice0_In in Hx.
      apply (proj1 (sortBy_In _ _ _)) in Hx. apply objEntries_In in Hx.
      rewrite Forall_forall in E. now apply E. }
    remember (slice0 3 (sortBy compareDocumentScores (objEntries scores)))
      as sorted eqn:Hsd. clear Hsd.
    intros H. injection H as <-.
    revert Hm Hsorted. generalize (mentionedSources modelAnswer documents) as acc.
    induction sorted as [|e l IH]; intros acc Hacc Hl; simpl; [exact Hacc|].
    inversion Hl as [|? ? He Hl']; subst. apply IH; [|exact Hl'].
    destruct Hacc as [Hf Hn]. split.
    + apply mapSet_Forall; [exact Hf | exact He].
    + now apply mapSet_NoDup.
  - intros H. injection H as <-. exact Hm.
Qed.

Lemma sourceSetOf_no_words modelAnswer documents :
  sourceSetOf regExpMatch modelAnswer [] documents
  = Ok (mentionedSources modelAnswer documents).
Proof.
  unfold sourceSetOf. rewrite documentScoresOf_no_words.
  now destruct (length _ =? 0).
Qed.

Lemma sourceSetOf_mentioned modelAnswer questionWords documents :
  mentionedSources modelAnswer documents <> [] ->
  sourceSetOf regExpMatch modelAnswer questionWords documents
  = Ok (mentionedSources modelAnswer documents).
Proof.
  unfold sourceSetOf. now destruct (mentionedSources modelAnswer documents).
Qed.

Lemma modelPath_answered client question documents message modelAnswer sourceSet :
  client (systemPromptOf (documentContentOf documents)) question = Ok message ->
  answerOfCompletion message = Ok modelAnswer ->
  sourceSetOf regExpMatch modelAnswer (modelQuestionWordsOf (toLowerCase question))
              documents = Ok sourceSet ->
  modelPath regExpMatch client question documents
  = Ok (mkResponse 200
          (AnswerBody question modelAnswer
             (slice0 3 (modelSourcesOf (modelQuestionWordsOf (toLowerCase question))
                                       sourceSet))
             modelConfidence modelMethod)).
Proof.
  intros Hc Ha Hs. unfold modelPath. rewrite Hc. cbn [bind]. rewrite Ha. cbn [bind].
  rewrite Hs. reflexivity.
Qed.

Lemma modelPath_ok_full client question documents response :
  modelPath regExpMatch client question documents = Ok response ->
  exists message modelAnswer sourceSet,
    client (systemPromptOf (documentContentOf documents)) question = Ok message
    /\ answerOfCompletion message = Ok modelAnswer
    /\ sourceSetOf regExpMatch modelAnswer
         (modelQuestionWordsOf (toLowerCase question)) documents = Ok sourceSet
    /\ response
       = mkResponse 200
           (AnswerBody question modelAnswer
              (slice0 3 (modelSourcesOf (modelQuestionWordsOf (toLowerCase question))
                                        sourceSet))
              modelConfidence modelMethod).
Proof.
  unfold modelPath.
  destruct (client _ question) as [message|]; cbn [bind]; [|discriminate].
  destruct (answerOfCompletion message) as [modelAnswer|] eqn:Ha; cbn [bind];
    [|discriminate].
  destruct (sourceSetOf _ _ _ _) as [sourceSet|] eqn:Hs; cbn [bind]; [|discriminate].
  intros H. injection H as <-. now exists message, modelAnswer, sourceSet.
Qed.

Lemma ask_cases openai question st :
  (~ validAsk question st
   /\ status (ask regExpMatch openai question st) = 400)
  \/ (validAsk question st /\ openai = None
      /\ status (ask regExpMatch openai question st) = 500)
  \/ (validAsk question st /\ openai <> None
      /\ status (ask regExpMatch openai question st) = 200).
Proof.
  destruct question as [[|c q]|].
  - left. split; [|reflexivity]. intros [(q & Hq & Hne) _]. congruence.
  - destruct (uploadedDocuments st) as [|d docs] eqn:Hd.
    + left. split; [intros [_ H]; congruence|]. unfold ask. now rewrite Hd.
    + right.
      assert (Hv : validAsk (Some (c :: q)) st).
      { split; [exists (c :: q); split; [reflexivity | discriminate]|].
        rewrite Hd. discriminate. }
      rewrite ask_valid by (try rewrite Hd; discriminate).
      destruct openai as [client|].
      * right. split; [exact Hv|]. split; [discriminate|].
        destruct (modelPath _ client _ _) as [response|] eqn:Hm; [|reflexivity].
        now apply modelPath_ok in Hm as (a & found & ->).
      * left. now split.
  - left. split; [|reflexivity]. intros [(q & Hq & Hne) _]. congruence.
Qed.
End WithRegExp.

End ModelPathFacts.

Module AskExtras.
Import Js JsFacts ArrayFacts Examples.
Import ServerFacts FallbackFacts ModelPathFacts RunFacts.

(** X9: what [/api/ask] does with every value of the question. A
    [TypeError] leaves the handler, and nothing else does, exactly when
    the question is a truthy value that is not a string, a document is
    stored and the model client exists. Otherwise the status is 400, 500
    or 200: 400 exactly when the question is absent or falsy or no document
    is stored, with the question checked first; 500 exactly when question
    and store are fine and there is no model client; 200 exactly when they
    are fine, the question is a string and a client exists, whether the
    model answers or the keyword search steps in. *)
Theorem ask_status regExpMatch openai question st :
  let r := Server.askRequest regExpMatch openai question st in
  let throws := Server.acceptedRequest question st
                /\ ~ Server.textQuestion question /\ openai <> None in
  (throws -> r = Throw TypeError)
  /\ (forall e, r = Throw e -> e = TypeError /\ throws)
  /\ (forall response, r = Ok response ->
        (Server.status response = 400 <-> ~ Server.acceptedRequest question st)
        /\ (Server.status response = 500
            <-> Server.acceptedRequest question st /\ openai = None)
        /\ (Server.status response = 200
            <-> Server.acceptedRequest question st
                /\ Server.textQuestion question /\ openai <> None))
  /\ ((forall v, question = Some v -> truthy v = false) ->
      r = Ok (Server.mkResponse 400 (Server.ErrorBody (lit "Question is required"))))
  /\ ((exists v, question = Some v /\ truthy v = true) ->
      Server.uploadedDocuments st = [] ->
      r = Ok (Server.mkResponse 400 (Server.ErrorBody (lit "No documents uploaded")))).
Proof.
  cbv zeta.
  destruct question as [v|].
  2:{ cbn [Server.askRequest].
      assert (Hn : ~ Server.acceptedRequest None st)
        by (intros [(v & Hv & _) _]; discriminate).
      split; [tauto|]. split; [discriminate|].
      split; [|split; [reflexivity|]].
      - intros response H. injection H as <-. cbn [Server.status].
        split; [tauto|]. split; split; try discriminate; tauto.
      - intros (v & Hv & _). discriminate. }
  assert (Hacc : Server.acceptedRequest (Some v) st
                 <-> truthy v = true /\ Server.uploadedDocuments st <> []).
  { unfold Server.acceptedRequest. split.
    - intros [(v' & Hv' & Ht) Hd]. injection Hv' as <-. now split.
    - intros [Ht Hd]. split; [now exists v | exact Hd]. }
  destruct (jsonString_dec v) as [(q & ->) | Hnot].
  - (* a string *)
    assert (Htext : Server.textQuestion (Some (JString q))) by (now exists q).
    assert (Hvalid : Server.validAsk (Some q) st
                     <-> Server.acceptedRequest (Some (JString q)) st).
    { rewrite Hacc. unfold Server.validAsk. cbn [truthy].
      rewrite negb_true_iff, Nat.eqb_neq, length_zero_iff_nil.
      split.
      - intros [(q' & Hq' & Hne) Hd]. injection Hq' as <-. now split.
      - intros [Hne Hd]. split; [now exists q | exact Hd]. }
    cbn [Server.askRequest].
    split; [tauto|]. split; [discriminate|]. split; [|split].
    + intros response H.
      replace response with (Server.ask regExpMatch openai (Some q) st)
        by congruence.
      rewrite <- Hvalid.
      destruct (ask_cases regExpMatch openai (Some q) st)
        as [[Hv Hs] | [(Hv & Ho & Hs) | (Hv & Ho & Hs)]]; rewrite Hs;
        (split; [|split]); split; try tauto; discriminate.
    + intros H. specialize (H _ eq_refl). cbn [truthy] in H.
      apply negb_false_iff, Nat.eqb_eq, length_zero_iff_nil in H. now subst.
    + intros (v & Hv & Ht) Hd. injection Hv as <-. cbn [truthy] in Ht.
      unfold Server.ask. rewrite Hd. destruct q; [discriminate | reflexivity].
  - (* any other value *)
    assert (Hntext : ~ Server.textQuestion (Some v)).
    { intros (q & Hq). injection Hq as ->. now apply (Hnot q). }
    assert (Hr : Server.askRequest regExpMatch openai (Some v) st
                 = if truthy v then
                     if length (Server.uploadedDocuments st) =? 0
                     then Ok (Server.mkResponse 400
                                (Server.ErrorBody (lit "No documents uploaded")))
                     else match openai with
                          | None =>
                              Ok (Server.mkResponse 500
                                    (Server.ErrorBody
                                       (lit "OpenAI API not initialized. Please check your API key.")))
                          | Some _ => Throw TypeError
                          end
                   else Ok (Server.mkResponse 400
                              (Server.ErrorBody (lit "Question is required")))).
    { destruct v; try reflexivity. now elim (Hnot s). }
    rewrite Hr. clear Hr.
    destruct (truthy v) eqn:Ht.
    + destruct (Server.uploadedDocuments st) as [|d docs] eqn:Hd; cbn [length Nat.eqb].
      * assert (Hno : ~ Server.acceptedRequest (Some v) st)
          by (rewrite Hacc; intros [_ H]; congruence).
        split; [tauto|]. split; [discriminate|]. split; [|split].
        -- intros response H. injection H as <-. cbn [Server.status].
           split; [|split]; split; try discriminate; tauto.
        -- intros H. specialize (H v eq_refl). congruence.
        -- intros _ _. reflexivity.
      * assert (Hyes : Server.acceptedRequest (Some v) st)
          by (rewrite Hacc; split; [reflexivity | discriminate]).
        destruct openai as [client|].
        -- split; [intros _; reflexivity|]. split.
           ++ intros e H. injection H as <-. split; [reflexivity|].
              split; [exact Hyes|]. split; [exact Hntext | discriminate].
           ++ split; [discriminate|]. split.
              ** intros H. specialize (H v eq_refl). congruence.
              ** intros _ H. discriminate.
        -- split; [intros (_ & _ & H); congruence|]. split; [discriminate|].
           split; [|split].
           ++ intros response H. injection H as <-. cbn [Server.status].
              split; [|split]; split; try discriminate; tauto.
           ++ intros H. specialize (H v eq_refl). congruence.
           ++ intros _ H. discriminate.
    + assert (Hno : ~ Server.acceptedRequest (Some v) st)
        by (rewrite Hacc; intros [H _]; discriminate).
      split; [tauto|]. split; [discriminate|]. split; [|split].
      * intros response H. injection H as <-. cbn [Server.status].
        split; [|split]; split; try discriminate; tauto.
      * intros _. reflexivity.
      * intros (v' & Hv' & Ht'). injection Hv' as <-. congruence.
Qed.

Lemma ask_status_witness :
  Server.askRequest plainWordRegExp (Some unauthorized) (Some (JNumber 5))
                    policyStore
  = Throw TypeError.
Proof.
  apply (proj1 (ask_status plainWordRegExp (Some unauthorized) (Some (JNumber 5))
                  policyStore)).
  split; [split; [now exists (JNumber 5) | discriminate]|].
  split; [intros (q & H) | ]; discriminate.
Defined.

(** X10: what the handler answers once the model has returned a completion
    whose first choice has text, for a question that is a non-empty string
    over a non-empty store. The citation step decides. If it completes,
    the model's text is the answer, unchanged, with method [openai]. If it
    throws, the answer is that of the keyword search: this happens only
    when the text mentions no stored document, the question has a word of
    more than 3 characters, and building or matching a regular expression
    from such a word throws. If the question has no such word, the
    response cites no source; if the text mentions a stored document, the
    cited documents are among the mentioned ones; in both cases no regular
    expression is built and the model's text is the answer. *)
Theorem model_text_answered_or_fallback
    regExpMatch client question st message modelAnswer :
  question <> [] ->
  Server.uploadedDocuments st <> [] ->
  let documents := Server.uploadedDocuments st in
  client (Server.systemPromptOf (Server.documentContentOf documents)) question
  = Ok message ->
  Server.answerOfCompletion message = Ok modelAnswer ->
  let questionWords := Server.modelQuestionWordsOf (toLowerCase question) in
  let r := Server.askRequest regExpMatch (Some client) (Some (JString question)) st in
  let answered found :=
    Ok (Server.mkResponse 200
          (Server.AnswerBody question modelAnswer found
                             Server.modelConfidence Server.modelMethod)) in
  (forall sourceSet,
     Server.sourceSetOf regExpMatch modelAnswer questionWords documents = Ok sourceSet ->
     r = answered (slice0 3 (Server.modelSourcesOf questionWords sourceSet)))
  /\ (forall e,
        Server.sourceSetOf regExpMatch modelAnswer questionWords documents = Throw e ->
        r = Ok (Server.fallbackResponse question documents)
        /\ Server.mentionedSources modelAnswer documents = []
        /\ questionWords <> []
        /\ Server.documentScoresOf regExpMatch questionWords documents = Throw e)
  /\ (questionWords = [] -> r = answered [])
  /\ (Server.mentionedSources modelAnswer documents <> [] ->
      r = answered (slice0 3 (Server.modelSourcesOf questionWords
                                (Server.mentionedSources modelAnswer documents)))).
Proof.
  intros Hq Hd documents Hc Ha questionWords r answered.
  assert (Hr : r = match Server.modelPath regExpMatch client question documents with
                   | Ok response => Ok response
                   | Throw _ => Ok (Server.fallbackResponse question documents)
                   end).
  { unfold r. cbn [Server.askRequest]. rewrite ask_valid by assumption.
    fold documents. now destruct (Server.modelPath _ _ _ _). }
  assert (Hok : forall sourceSet,
            Server.sourceSetOf regExpMatch modelAnswer questionWords documents
            = Ok sourceSet ->
            r = answered (slice0 3 (Server.modelSourcesOf questionWords sourceSet))).
  { intros sourceSet Hs. rewrite Hr.
    now rewrite (modelPath_answered regExpMatch client question documents message
                   modelAnswer sourceSet Hc Ha Hs). }
  split; [exact Hok|]. split; [|split].
  - intros e He.
    assert (Hm : Server.mentionedSources modelAnswer documents = []).
    { destruct (Server.mentionedSources modelAnswer documents) eqn:Hm;
        [reflexivity|].
      rewrite (sourceSetOf_mentioned regExpMatch modelAnswer questionWords documents)
        in He; [discriminate | rewrite Hm; discriminate]. }
    assert (Hw : questionWords <> []).
    { intros Hw. rewrite Hw, sourceSetOf_no_words in He. discriminate. }
    split; [|split; [exact Hm | split; [exact Hw|]]].
    + rewrite Hr.
      assert (Ht : Server.modelPath regExpMatch client question documents = Throw e).
      { apply modelPath_throws. right. exists message. split; [exact Hc|].
        right. exists modelAnswer. now split. }
      now rewrite Ht.
    + unfold Server.sourceSetOf in He. rewrite Hm in He. cbn [length Nat.eqb] in He.
      destruct (Server.documentScoresOf regExpMatch questionWords documents);
        cbn [bind] in He; [discriminate | congruence].
  - intros Hw. rewrite (Hok (Server.mentionedSources modelAnswer documents)).
    + rewrite Hw. now rewrite modelSourcesOf_no_words.
    + rewrite Hw. apply sourceSetOf_no_words.
  - intros Hm. apply Hok. now apply sourceSetOf_mentioned.
Qed.

Lemma model_text_answered_or_fallback_witness :
  Server.askRequest plainWordRegExp (Some (completes "It is not available."))
    (Some (JString parenQuestion)) policyStore
  = Ok (Server.fallbackResponse parenQuestion [policy; handbook])
  /\ Server.askRequest (fun _ _ _ => Throw SyntaxError)
       (Some (completes "According to policy.txt: submit two weeks ahead"))
       (Some (JString vacationQuestion)) policyStore
     = Ok (Server.mkResponse 200
             (Server.AnswerBody vacationQuestion
                (lit "According to policy.txt: submit two weeks ahead")
                (slice0 3
                   (Server.modelSourcesOf
                      (Server.modelQuestionWordsOf (toLowerCase vacationQuestion))
                      (Server.mentionedSources
                         (lit "According to policy.txt: submit two weeks ahead")
                         [policy; handbook])))
                Server.modelConfidence Server.modelMethod)).
Proof.
  assert (Hd : Server.uploadedDocuments policyStore <> []) by discriminate.
  split.
  - assert (Hq : parenQuestion <> []) by discriminate.
    apply (proj1 (proj2 (model_text_answered_or_fallback plainWordRegExp
                    (completes "It is not available.") parenQuestion policyStore
                    _ (lit "It is not available.") Hq Hd eq_refl eq_refl))
             SyntaxError).
    reflexivity.
  - assert (Hq : vacationQuestion <> []) by discriminate.
    apply (proj2 (proj2 (proj2 (model_text_answered_or_fallback
                    (fun _ _ _ => Throw SyntaxError)
                    (completes "According to policy.txt: submit two weeks ahead")
                    vacationQuestion policyStore _
                    (lit "According to policy.txt: submit two weeks ahead")
                    Hq Hd eq_refl eq_refl)))).
    vm_compute. discriminate.
Defined.

(** X11: every source of a model-path response names a stored document,
    and its excerpt is the start of a sentence of that document which
    contains a question word: a substring of the document's content of 21
    to 250 characters. *)
Theorem model_sources_cite_stored_documents
    regExpMatch client question documents response q a srcs c m :
  Server.modelPath regExpMatch client question documents = Ok response ->
  Server.body response = Server.AnswerBody q a srcs c m ->
  forall s, In s srcs ->
    exists doc sentence,
      In doc documents
      /\ Server.name doc = document s
      /\ In sentence (Server.sentencesOf (Server.content doc))
      /\ excerpt s = firstn 250 sentence
      /\ substringOf (excerpt s) (Server.content doc)
      /\ 20 < length (excerpt s) <= 250
      /\ exists w, In w (Server.modelQuestionWordsOf (toLowerCase question))
                   /\ includes (toLowerCase sentence) (toLowerCase w) = true.
Proof.
  intros Hm Hb s Hs.
  apply modelPath_ok_full in Hm as (message & modelAnswer & sourceSet & _ & _ & Hss & ->).
  cbn [Server.body] in Hb. injection Hb as _ _ <- _ _.
  apply sourceSetOf_entries in Hss as [Hentries _].
  apply (slice0_In 3) in Hs. rewrite modelSourcesOf_flat in Hs.
  apply in_flat_map in Hs as (e & He & Hs).
  rewrite Forall_forall in Hentries. destruct (Hentries e He) as [Hdoc Hname].
  destruct (Server.relevantSentencesOf _ _) as [|best rest] eqn:Hr; [destruct Hs|].
  destruct Hs as [<- | []].
  assert (Hbest : In best (Server.relevantSentencesOf
                             (Server.modelQuestionWordsOf (toLowerCase question))
                             (Server.entryDoc (snd e))))
    by (rewrite Hr; now left).
  unfold Server.relevantSentencesOf in Hbest.
  apply (proj1 (sortBy_In _ _ _)) in Hbest. apply filter_In in Hbest as [Hin Hw].
  apply existsb_exists in Hw as (w & Hw & Hinc).
  assert (H250 : 20 < 250) by lia.
  destruct (excerpt_shape _ _ 250 Hin H250) as (Heq & Hl & _ & _ & Hsub).
  exists (Server.entryDoc (snd e)), best. cbn [document excerpt].
  repeat split; try assumption; try apply Hl.
  now exists w.
Qed.

Lemma model_sources_cite_stored_documents_witness :
  exists doc sentence,
    In doc [policy; handbook]
    /\ Server.name doc = lit "policy.txt"
    /\ In sentence (Server.sentencesOf (Server.content doc))
    /\ lit "Vacation requests must be submitted 2 weeks in advance"
       = firstn 250 sentence
    /\ substringOf (lit "Vacation requests must be submitted 2 weeks in advance")
                   (Server.content doc)
    /\ 20 < length (lit "Vacation requests must be submitted 2 weeks in advance") <= 250
    /\ exists w, In w (Server.modelQuestionWordsOf (toLowerCase vacationQuestion))
                 /\ includes (toLowerCase sentence) (toLowerCase w) = true.
Proof.
  apply (model_sources_cite_stored_documents plainWordRegExp
           (completes "According to policy.txt: submit two weeks ahead")
           vacationQuestion [policy; handbook] _ _ _ _ _ _ eq_refl eq_refl
           (mkSource (lit "policy.txt")
              (lit "Vacation requests must be submitted 2 weeks in advance"))).
  now left.
Defined.

(** X12: a model-path response names each document at most once among its
    sources. *)
Theorem model_sources_distinct
    regExpMatch client question documents response q a srcs c m :
  Server.modelPath regExpMatch client question documents = Ok response ->
  Server.body response = Server.AnswerBody q a srcs c m ->
  NoDup (map document srcs).
Proof.
  intros Hm Hb.
  apply modelPath_ok_full in Hm as (message & modelAnswer & sourceSet & _ & _ & Hss & ->).
  apply sourceSetOf_entries in Hss as [_ Hnd].
  assert (Hgoal : NoDup (map document
                    (slice0 3 (Server.modelSourcesOf
                                 (Server.modelQuestionWordsOf (toLowerCase question))
                                 sourceSet)))).
  { unfold slice0. rewrite <- firstn_map. apply (slice0_NoDup 3).
    now apply modelSourcesOf_NoDup. }
  cbn [Server.body] in Hb. injection Hb as _ _ <- _ _. exact Hgoal.
Qed.

Lemma model_sources_distinct_witness :
  NoDup (map document
           [mkSource (lit "policy.txt")
              (lit "Vacation requests must be submitted 2 weeks in advance")]).
Proof.
  exact (model_sources_distinct plainWordRegExp
           (completes "According to policy.txt: submit two weeks ahead")
           vacationQuestion [policy; handbook] _ _ _ _ _ _ eq_refl eq_refl).
Defined.

End AskExtras.

(** ** More on the client *)
Module ClientMoreFacts.
Import Js JsFacts ArrayFacts Client ClientFacts.
Import FallbackFacts ModelPathFacts StoreFacts.

Lemma Subsequence_filter {A} (p : A -> bool) l : Subsequence (filter p l) l.
Proof.
  induction l as [|x l IH]; simpl; [apply SubNil|].
  destruct (p x); [now apply SubKeep | now apply SubSkip].
Qed.

Lemma filter_twice {A} (p : A -> bool) l : filter p (filter p l) = filter p l.
Proof. apply ServerFacts.filter_all. intros x Hx. now apply filter_In in Hx. Qed.

Lemma handleUpload_synced file read nowMs nowIso st :
  stored st = uploadedDocuments st ->
  stored (fst (handleUpload file read nowMs nowIso st))
  = uploadedDocuments (fst (handleUpload file read nowMs nowIso st)).
Proof.
  intros H. unfold handleUpload. destruct file as [f|]; [|exact H].
  destruct read; [reflexivity | exact H | exact H].
Qed.

Lemma handleDeleteDocument_synced confirmed docId st :
  stored st = uploadedDocuments st ->
  stored (handleDeleteDocument confirmed docId st)
  = uploadedDocuments (handleDeleteDocument confirmed docId st).
Proof.
  intros H. unfold handleDeleteDocument. destruct confirmed; [reflexivity | exact H].
Qed.

Lemma trim_empty_iff question :
  (length (trim question) =? 0) = true
  <-> Forall (fun c => isWhiteSpace c = true) question.
Proof.
  rewrite Nat.eqb_eq, <- trim_nil_iff. apply length_zero_iff_nil.
Qed.

Lemma foldM_steps_ok {A B} (step : B -> A -> Outcome B) l acc r :
  foldM step acc l = Ok r ->
  forall x, In x l -> exists b b', step b x = Ok b'.
Proof.
  revert acc; induction l as [|y l IH]; intros acc H x Hx; [destruct Hx|].
  cbn [foldM] in H. destruct (step acc y) as [acc'|] eqn:E; cbn [bind] in H;
    [|discriminate].
  destruct Hx as [<- | Hx]; [now exists acc, acc' | now apply (IH acc')].
Qed.

Lemma foldM_throws {A B} (step : B -> A -> Outcome B) l acc x :
  In x l -> (forall b, exists e, step b x = Throw e) ->
  exists e, foldM step acc l = Throw e.
Proof.
  revert acc; induction l as [|y l IH]; intros acc Hx Hthrow; [destruct Hx|].
  cbn [foldM]. destruct (step acc y) as [acc'|e] eqn:E; cbn [bind].
  - destruct Hx as [-> | Hx].
    + destruct (Hthrow acc) as [e He]. congruence.
    + now apply IH.
  - now exists e.
Qed.

Section Engine.
Variable regExpMatch : RegExpMatch.

Lemma scoreChunk_from keywords lowerChunk acc z :
  foldM (fun sc keyword =>
           if includes lowerChunk keyword then
             bind (regExpMatch (wordBoundary ++ keyword ++ wordBoundary)
                               (lit "gi") lowerChunk)
                  (fun matches =>
                     match matches with
                     | Some ms => Ok (sc + 1 + Z.of_nat (length ms))%Z
                     | None => Ok (sc + 1)%Z
                     end)
           else Ok sc)
        acc keywords = Ok z ->
  let hits := Z.of_nat (length (filter (fun k => includes lowerChunk k) keywords)) in
  (acc + hits <= z)%Z /\ (hits = 0%Z -> z = acc).
Proof.
  revert acc; induction keywords as [|k ks IH]; intros acc; cbn [foldM filter].
  - intros H. injection H as <-. cbn [length]. split; [lia | reflexivity].
  - destruct (includes lowerChunk k).
    + destruct (regExpMatch _ _ _) as [[ms|]|]; cbn [bind]; try discriminate;
        intros H; apply IH in H; cbn [length]; rewrite Nat2Z.inj_succ;
        cbv zeta in *; split; lia.
    + apply IH.
Qed.

Lemma scoreChunk_hits keywords chunk z :
  scoreChunk regExpMatch keywords (toLowerCase chunk) = Ok z ->
  (keywordHits keywords chunk <= z)%Z
  /\ ((0 < z)%Z <-> (0 < keywordHits keywords chunk)%Z).
Proof.
  intros H. apply scoreChunk_from in H. cbv zeta in H.
  fold (keywordHits keywords chunk) in H.
  assert (0 <= keywordHits keywords chunk)%Z by (unfold keywordHits; lia).
  destruct H as [H1 H2]. split; [lia|]. split; [|lia].
  intros Hz. destruct (Z.eq_dec (keywordHits keywords chunk) 0) as [E|]; [|lia].
  specialize (H2 E). lia.
Qed.

Lemma scoreChunk_no_hits keywords chunk :
  keywordHits keywords chunk = 0%Z ->
  scoreChunk regExpMatch keywords (toLowerCase chunk) = Ok 0%Z.
Proof.
  unfold keywordHits, scoreChunk. generalize 0%Z at 2 3 as acc.
  induction keywords as [|k ks IH]; intros acc; cbn [foldM filter]; [reflexivity|].
  destruct (includes (toLowerCase chunk) k).
  - cbn [length]. rewrite Nat2Z.inj_succ. lia.
  - apply IH.
Qed.

Lemma pushChunk_ok keywords doc acc chunk acc' :
  pushChunk regExpMatch keywords doc acc chunk = Ok acc' ->
  exists z, scoreChunk regExpMatch keywords (toLowerCase chunk) = Ok z.
Proof.
  unfold pushChunk. destruct (scoreChunk _ _ _) as [z|]; [now exists z | discriminate].
Qed.

Lemma relevantChunksOf_all_scored keywords docs cands :
  relevantChunksOf regExpMatch keywords docs = Ok cands ->
  forall doc chunk, In doc docs -> In chunk (splitBlankLines (content doc)) ->
    exists z, scoreChunk regExpMatch keywords (toLowerCase chunk) = Ok z.
Proof.
  unfold relevantChunksOf. intros H doc chunk Hdoc Hchunk.
  destruct (foldM_steps_ok _ _ _ _ H doc Hdoc) as (b & b' & Hstep).
  destruct (foldM_steps_ok _ _ _ _ Hstep chunk Hchunk) as (c & c' & Hpush).
  now apply pushChunk_ok in Hpush.
Qed.

(** [relevantChunks] chunk by chunk. *)
Lemma relevantChunksOf_In keywords docs cands c :
  relevantChunksOf regExpMatch keywords docs = Ok cands ->
  (In c cands
   <-> exists doc chunk,
         In doc docs /\ In chunk (splitBlankLines (content doc))
         /\ text c = trim chunk /\ source c = name doc
         /\ scoreChunk regExpMatch keywords (toLowerCase chunk) = Ok (score c)
         /\ (0 < keywordHits keywords chunk)%Z).
Proof.
  intros H.
  pose proof (relevantChunksOf_all_scored _ _ _ H) as Hall.
  set (sc := fun (doc : Document) chunk =>
               match scoreChunk regExpMatch keywords (toLowerCase chunk) with
               | Ok z => z
               | Throw _ => 0%Z
               end).
  assert (Hsc : forall doc chunk, In doc docs ->
                  In chunk (splitBlankLines (content doc)) ->
                  scoreChunk regExpMatch keywords (toLowerCase chunk)
                  = Ok (sc doc chunk)).
  { intros doc chunk Hd Hc. unfold sc. now destruct (Hall doc chunk Hd Hc) as [z ->]. }
  rewrite (relevantChunksOf_scored regExpMatch keywords sc docs Hsc) in H.
  injection H as <-. rewrite filter_In. unfold scoredChunks. rewrite in_flat_map.
  split.
  - intros [(doc & Hd & Hc) Hpos]. apply in_map_iff in Hc as (chunk & <- & Hc).
    cbn [score] in Hpos. apply Z.ltb_lt in Hpos.
    exists doc, chunk. cbn [text source score].
    pose proof (Hsc doc chunk Hd Hc) as Hs.
    repeat split; try assumption. now apply (scoreChunk_hits _ _ _ Hs).
  - intros (doc & chunk & Hd & Hc & Ht & Hn & Hs & Hhits).
    assert (Heq : c = mkChunk (trim chunk) (sc doc chunk) (name doc)).
    { destruct c as [t z n]. cbn [text source score] in *. subst.
      rewrite (Hsc doc chunk Hd Hc) in Hs. now injection Hs as ->. }
    split.
    + exists doc. split; [exact Hd|]. apply in_map_iff. now exists chunk.
    + rewrite Heq. cbn [score]. apply Z.ltb_lt.
      now apply (scoreChunk_hits _ _ _ (Hsc doc chunk Hd Hc)).
Qed.

Lemma relevantChunksOf_throws keywords docs doc chunk keyword e :
  In keyword keywords -> In doc docs -> In chunk (splitBlankLines (content doc)) ->
  includes (toLowerCase chunk) keyword = true ->
  regExpMatch (wordBoundary ++ keyword ++ wordBoundary) (lit "gi")
              (toLowerCase chunk) = Throw e ->
  exists e', relevantChunksOf regExpMatch keywords docs = Throw e'.
Proof.
  intros Hk Hd Hc Hinc Hre. unfold relevantChunksOf.
  apply (foldM_throws _ docs [] doc Hd). intros acc.
  apply (foldM_throws _ _ acc chunk Hc). intros acc'.
  unfold pushChunk.
  destruct (foldM_throws
              (fun sc keyword =>
                 if includes (toLowerCase chunk) keyword then
                   bind (regExpMatch (wordBoundary ++ keyword ++ wordBoundary)
                                     (lit "gi") (toLowerCase chunk))
                        (fun matches =>
                           match matches with
                           | Some ms => Ok (sc + 1 + Z.of_nat (length ms))%Z
                           | None => Ok (sc + 1)%Z
                           end)
                 else Ok sc)
              keywords 0%Z keyword Hk) as [e' He'].
  { intros b. rewrite Hinc, Hre. now exists e. }
  unfold scoreChunk. rewrite He'. now exists e'.
Qed.
End Engine.

End ClientMoreFacts.

(** ** The client store and its writes to local storage *)
Module ClientStoreFacts.
Import Js JsFacts ArrayFacts ClientFacts.
Import Client.

Lemma filter_fixed_iff {A} (p : A -> bool) l :
  filter p l = l <-> forall x, In x l -> p x = true.
Proof.
  split; [|apply ServerFacts.filter_all].
  induction l as [|a l IH]; intros H x Hx; [destruct Hx|].
  cbn [filter] in H. destruct (p a) eqn:Ha.
  - injection H as H. destruct Hx as [<- | Hx]; [exact Ha | now apply IH].
  - exfalso. pose proof (filter_length_le p l) as Hl. rewrite H in Hl.
    cbn [length] in Hl. lia.
Qed.

(** With a write that succeeds the handlers are those of [Client]. *)
Lemma handleDeleteDocumentIO_written confirmed docId st :
  handleDeleteDocumentIO confirmed true docId st
  = mkHandled (handleDeleteDocument confirmed docId st) None false.
Proof. unfold handleDeleteDocumentIO, handleDeleteDocument. now destruct confirmed. Qed.

Lemma handleUploadIO_written file read nowMs nowIso st :
  after (handleUploadIO file read nowMs nowIso true st)
  = fst (handleUpload file read nowMs nowIso st)
  /\ alerted (handleUploadIO file read nowMs nowIso true st)
     = Some (snd (handleUpload file read nowMs nowIso st))
  /\ raised (handleUploadIO file read nowMs nowIso true st) = false.
Proof.
  unfold handleUploadIO, handleUpload. destruct file as [f|]; [|now split].
  destruct read; now split.
Qed.

Lemma applyOp_synced op st :
  writeSucceeds op = true ->
  stored st = uploadedDocuments st ->
  stored (applyOp st op) = uploadedDocuments (applyOp st op).
Proof.
  intros Hw H. destruct op as [file read nowMs nowIso writeOk | confirmed docId writeOk];
    cbn [writeSucceeds] in Hw; subst writeOk; cbn [applyOp].
  - unfold handleUploadIO. destruct file as [f|]; [|exact H].
    destruct read; [reflexivity | exact H | exact H].
  - unfold handleDeleteDocumentIO. destruct confirmed; [reflexivity | exact H].
Qed.

Lemma runOps_synced ops :
  forall st,
    forallb writeSucceeds ops = true ->
    stored st = uploadedDocuments st ->
    stored (fold_left applyOp ops st) = uploadedDocuments (fold_left applyOp ops st).
Proof.
  induction ops as [|op ops IH]; intros st Hw H; [exact H|].
  cbn [forallb] in Hw. apply andb_true_iff in Hw as [Hop Hops].
  cbn [fold_left]. apply IH; [exact Hops | now apply applyOp_synced].
Qed.

End ClientStoreFacts.

Module ClientExtras.
Import Js JsFacts ArrayFacts Examples.
Import ClientFacts FallbackFacts StoreFacts ClientMoreFacts ClientStoreFacts.

(** X13: a confirmed deletion on the client removes from the page every
    document with the given id (not only the first) and keeps the others
    in order, whether or not the write to local storage succeeds. If the
    write succeeds, the saved list is the new list; if it throws, the saved
    list stays as it was and the exception leaves the handler. Doing it
    again leaves the page as it is; a declined deletion changes nothing. *)
Theorem client_delete_removes_every_match writeOk docId st :
  let h := Client.handleDeleteDocumentIO true writeOk docId st in
  let st' := Client.after h in
  (forall d, In d (Client.uploadedDocuments st')
             <-> In d (Client.uploadedDocuments st) /\ Client.id d <> docId)
  /\ Subsequence (Client.uploadedDocuments st') (Client.uploadedDocuments st)
  /\ (writeOk = true ->
      Client.raised h = false
      /\ Client.stored st' = Client.uploadedDocuments st')
  /\ (writeOk = false ->
      Client.raised h = true /\ Client.stored st' = Client.stored st)
  /\ (forall writeOk',
        Client.uploadedDocuments
          (Client.after (Client.handleDeleteDocumentIO true writeOk' docId st'))
        = Client.uploadedDocuments st')
  /\ (forall writeOk',
        Client.handleDeleteDocumentIO false writeOk' docId st
        = Client.mkHandled st None false).
Proof.
  cbv zeta. unfold Client.handleDeleteDocumentIO.
  assert (Hp : Client.uploadedDocuments
                 (Client.after
                    (if writeOk
                     then Client.mkHandled
                            (Client.mkState
                               (filter (fun doc => negb (eqStr (Client.id doc) docId))
                                       (Client.uploadedDocuments st))
                               (filter (fun doc => negb (eqStr (Client.id doc) docId))
                                       (Client.uploadedDocuments st)))
                            None false
                     else Client.mkHandled
                            (Client.mkState
                               (filter (fun doc => negb (eqStr (Client.id doc) docId))
                                       (Client.uploadedDocuments st))
                               (Client.stored st))
                            None true))
               = filter (fun doc => negb (eqStr (Client.id doc) docId))
                        (Client.uploadedDocuments st))
    by (now destruct writeOk).
  rewrite Hp.
  split; [|split; [|split; [|split; [|split]]]].
  - intros d. rewrite filter_In, negb_true_iff, eqStr_false_iff. tauto.
  - apply Subsequence_filter.
  - intros ->. now split.
  - intros ->. now split.
  - intros [|]; cbn [Client.after Client.uploadedDocuments]; apply filter_twice.
  - reflexivity.
Qed.

Lemma client_delete_removes_every_match_witness :
  Client.raised (Client.handleDeleteDocumentIO true false (lit "1700000000000")
                   clientStore) = true
  /\ Client.stored (Client.after (Client.handleDeleteDocumentIO true false
                                    (lit "1700000000000") clientStore))
     = [clientPolicy; incomeNotes].
Proof.
  exact (proj1 (proj2 (proj2 (proj2
           (client_delete_removes_every_match false (lit "1700000000000")
              clientStore)))) eq_refl).
Defined.

(** X14: starting from the list loaded at mount, after any sequence of
    uploads (read or failed) and deletions (confirmed or declined) whose
    writes to local storage all succeed, the saved list is the list on the
    page. One write that throws ends this: after an upload that was read,
    the page has a document that the saved list lacks; after a confirmed
    deletion, the two lists agree only if no document had the id. *)
Theorem client_storage_in_sync (saved : list Client.Document)
    (ops : list Client.StoreOp) :
  (forallb Client.writeSucceeds ops = true ->
   let st := fold_left Client.applyOp ops (Client.mountState saved) in
   Client.stored st = Client.uploadedDocuments st)
  /\ (forall st f content nowMs nowIso,
        Client.stored st = Client.uploadedDocuments st ->
        let st' := Client.applyOp st
                     (Client.UploadOp (Some f) (Client.ReadLoaded content)
                                      nowMs nowIso false) in
        Client.uploadedDocuments st'
        = Client.stored st'
          ++ [Client.mkDocument nowMs (Client.fileName f) content
                                (Client.fileSize f) nowIso]
        /\ Client.stored st' <> Client.uploadedDocuments st')
  /\ (forall st docId,
        Client.stored st = Client.uploadedDocuments st ->
        let st' := Client.applyOp st (Client.DeleteOp true docId false) in
        Client.stored st' = Client.uploadedDocuments st'
        <-> forall d, In d (Client.uploadedDocuments st) -> Client.id d <> docId).
Proof.
  split; [|split].
  - intros Hw. cbv zeta. now apply runOps_synced.
  - intros st f content nowMs nowIso Hs. cbv zeta.
    cbn [Client.applyOp Client.handleUploadIO Client.after
         Client.uploadedDocuments Client.stored].
    rewrite Hs. split; [reflexivity|].
    intros H. apply (f_equal (@length _)) in H. rewrite length_app in H.
    cbn [length] in H. lia.
  - intros st docId Hs. cbv zeta.
    cbn [Client.applyOp Client.handleDeleteDocumentIO Client.after
         Client.uploadedDocuments Client.stored].
    rewrite Hs. split.
    + intros H d Hd. symmetry in H.
      apply (proj1 (filter_fixed_iff _ _) H) in Hd.
      now apply negb_true_iff, eqStr_false_iff in Hd.
    + intros H. symmetry. apply filter_fixed_iff. intros d Hd.
      apply negb_true_iff, eqStr_false_iff. now apply H.
Qed.

Lemma client_storage_in_sync_witness :
  Client.stored (fold_left Client.applyOp clientSession (Client.mountState [clientPolicy]))
  = Client.uploadedDocuments
      (fold_left Client.applyOp clientSession (Client.mountState [clientPolicy])).
Proof.
  apply (proj1 (client_storage_in_sync [clientPolicy] clientSession)).
  reflexivity.
Defined.

(** X15: an upload on the client appends one document whose id is the
    clock reading; when no stored document has that id, deleting it again
    gives back the list as it was. An upload with no file, or whose file
    cannot be read, changes nothing. *)
Theorem client_upload_then_delete_restores f content nowMs nowIso st :
  (forall d, In d (Client.uploadedDocuments st) -> Client.id d <> nowMs) ->
  let st1 := fst (Client.handleUpload (Some f) (Client.ReadLoaded content)
                    nowMs nowIso st) in
  Client.uploadedDocuments st1
  = Client.uploadedDocuments st
    ++ [Client.mkDocument nowMs (Client.fileName f) content (Client.fileSize f) nowIso]
  /\ Client.uploadedDocuments (Client.handleDeleteDocument true nowMs st1)
     = Client.uploadedDocuments st
  /\ fst (Client.handleUpload None (Client.ReadLoaded content) nowMs nowIso st) = st
  /\ fst (Client.handleUpload (Some f) Client.ReadFailed nowMs nowIso st) = st
  /\ forall message,
       fst (Client.handleUpload (Some f) (Client.ReadThrew message) nowMs nowIso st)
       = st.
Proof.
  intros Hfresh st1. unfold st1. cbn.
  split; [reflexivity|]. split; [|split; [|split]]; try reflexivity.
  rewrite filter_app. cbn. rewrite eqStr_refl. cbn. rewrite app_nil_r.
  apply ServerFacts.filter_all. intros d Hd.
  apply negb_true_iff, eqStr_false_iff. now apply Hfresh.
Qed.

Lemma client_upload_then_delete_restores_witness :
  Client.uploadedDocuments
    (Client.handleDeleteDocument true (lit "1700000000009")
       (fst (Client.handleUpload (Some (Client.mkSelectedFile (lit "memo.txt") 4))
               (Client.ReadLoaded (lit "memo")) (lit "1700000000009")
               (lit "2023-11-14T22:13:20.009Z") clientStore)))
  = Client.uploadedDocuments clientStore.
Proof.
  apply (client_upload_then_delete_restores
           (Client.mkSelectedFile (lit "memo.txt") 4) (lit "memo")
           (lit "1700000000009") (lit "2023-11-14T22:13:20.009Z") clientStore).
  intros d [<- | [<- | []]]; discriminate.
Defined.

(** X16: the client asks for a question exactly when the question is empty
    or all white space; otherwise it asks for documents when none is
    stored, and otherwise runs the search on the stored documents. *)
Theorem client_rejects_blank_question regExpMatch question st :
  (Client.handleGetAnswer regExpMatch question st
   = Client.Alert (lit "Please ask a question")
   <-> Forall (fun c => isWhiteSpace c = true) question)
  /\ (~ Forall (fun c => isWhiteSpace c = true) question ->
      (Client.uploadedDocuments st = [] ->
       Client.handleGetAnswer regExpMatch question st
       = Client.Alert (lit "Please upload some documents first."))
      /\ (Client.uploadedDocuments st <> [] ->
          Client.handleGetAnswer regExpMatch question st
          = Client.Answered
              (Client.findAnswerInDocuments regExpMatch question
                 (Client.uploadedDocuments st)))).
Proof.
  unfold Client.handleGetAnswer. rewrite <- trim_empty_iff.
  destruct (length (trim question) =? 0).
  - split; [tauto | intros H; now contradiction H].
  - split.
    + split; [|discriminate]. destruct (length _ =? 0); discriminate.
    + intros _. destruct (Client.uploadedDocuments st); split; simpl;
        congruence.
Qed.

Lemma client_rejects_blank_question_witness :
  Client.handleGetAnswer plainWordRegExp (lit "income taxes") clientStore
  = Client.Answered
      (Client.findAnswerInDocuments plainWordRegExp (lit "income taxes")
         (Client.uploadedDocuments clientStore)).
Proof.
  apply (proj2 (client_rejects_blank_question plainWordRegExp (lit "income taxes")
                  clientStore)).
  - intros H. inversion H; discriminate.
  - discriminate.
Defined.

(** X17: when the client's scoring loop returns, the chunks it keeps are
    exactly the paragraphs that contain at least one keyword, each with its
    trimmed text and the name of its document; the score of a kept chunk is
    at least the number of keywords it contains. *)
Theorem client_keeps_chunks_with_a_keyword regExpMatch keywords docs cands :
  Client.relevantChunksOf regExpMatch keywords docs = Ok cands ->
  forall c,
    (In c cands
     <-> exists doc chunk,
           In doc docs /\ In chunk (splitBlankLines (Client.content doc))
           /\ Client.text c = trim chunk /\ Client.source c = Client.name doc
           /\ Client.scoreChunk regExpMatch keywords (toLowerCase chunk)
              = Ok (Client.score c)
           /\ (0 < Client.keywordHits keywords chunk <= Client.score c)%Z).
Proof.
  intros H c. rewrite (relevantChunksOf_In regExpMatch keywords docs cands c H).
  split; intros (doc & chunk & Hd & Hc & Ht & Hn & Hs & Hh);
    exists doc, chunk; repeat split; try assumption; try lia.
  now apply (scoreChunk_hits regExpMatch keywords chunk _ Hs).
Qed.

Lemma client_keeps_chunks_with_a_keyword_witness :
  In (Client.mkChunk (lit "income taxes") 4 (lit "notes.txt"))
     [Client.mkChunk (lit "income income income") 4 (lit "notes.txt");
      Client.mkChunk (lit "income taxes") 4 (lit "notes.txt")]
  <-> exists doc chunk,
        In doc [incomeNotes] /\ In chunk (splitBlankLines (Client.content doc))
        /\ lit "income taxes" = trim chunk /\ lit "notes.txt" = Client.name doc
        /\ Client.scoreChunk plainWordRegExp (Client.keywordsOf incomeQuery)
             (toLowerCase chunk) = Ok 4%Z
        /\ (0 < Client.keywordHits (Client.keywordsOf incomeQuery) chunk <= 4)%Z.
Proof.
  exact (client_keeps_chunks_with_a_keyword plainWordRegExp
           (Client.keywordsOf incomeQuery) [incomeNotes] _ eq_refl
           (Client.mkChunk (lit "income taxes") 4 (lit "notes.txt"))).
Defined.

(** X18: when the query has a keyword but no paragraph of any document
    contains one, the client answers with its not-found text and no
    sources, and no regular expression is evaluated: the result is the same
    for every regular-expression engine. *)
Theorem client_not_found_without_hits regExpMatch query docs :
  Client.keywordsOf query <> [] ->
  (forall doc chunk,
     In doc docs -> In chunk (splitBlankLines (Client.content doc)) ->
     Client.keywordHits (Client.keywordsOf query) chunk = 0%Z) ->
  Client.findAnswerInDocuments regExpMatch query docs
  = Ok (Client.mkAnswerResult Client.nothingFound []).
Proof.
  intros Hk Hnone. unfold Client.findAnswerInDocuments, Client.rankedChunks.
  destruct (Client.keywordsOf query) as [|k ks] eqn:E; [congruence|].
  cbn [length Nat.eqb]. rewrite <- E in *.
  rewrite (relevantChunksOf_scored regExpMatch (Client.keywordsOf query)
             (fun _ _ => 0%Z) docs).
  - cbn [bind].
    assert (Hempty : filter (fun c => (0 <? Client.score c)%Z)
                            (Client.scoredChunks (fun _ _ => 0%Z) docs) = []).
    { unfold Client.scoredChunks. clear.
      induction docs as [|d ds IH]; [reflexivity|].
      cbn [flat_map]. rewrite filter_app, IH, app_nil_r.
      induction (splitBlankLines (Client.content d)) as [|chunk l IHl];
        [reflexivity | exact IHl]. }
    rewrite Hempty. reflexivity.
  - intros doc chunk Hd Hc. apply scoreChunk_no_hits. exact (Hnone doc chunk Hd Hc).
Qed.

Lemma client_not_found_without_hits_witness :
  Client.findAnswerInDocuments (fun _ _ _ => Throw SyntaxError)
                               (lit "budget") [clientPolicy]
  = Ok (Client.mkAnswerResult Client.nothingFound []).
Proof.
  apply (client_not_found_without_hits (fun _ _ _ => Throw SyntaxError)
           (lit "budget") [clientPolicy]).
  - discriminate.
  - intros doc chunk [<- | []] Hc. vm_compute in Hc.
    destruct Hc as [<- | []]. reflexivity.
Defined.

(** X19: the client search fails as a whole when a keyword that occurs in
    some paragraph does not parse as a regular expression: the exception of
    the pattern leaves [findAnswerInDocuments], and no answer is produced. *)
Theorem client_search_throws_on_bad_pattern
    regExpMatch query docs doc chunk keyword e :
  In keyword (Client.keywordsOf query) ->
  In doc docs ->
  In chunk (splitBlankLines (Client.content doc)) ->
  includes (toLowerCase chunk) keyword = true ->
  regExpMatch (wordBoundary ++ keyword ++ wordBoundary) (lit "gi")
              (toLowerCase chunk) = Throw e ->
  exists e', Client.findAnswerInDocuments regExpMatch query docs = Throw e'.
Proof.
  intros Hk Hd Hc Hinc Hre.
  destruct (relevantChunksOf_throws regExpMatch (Client.keywordsOf query) docs
              doc chunk keyword e Hk Hd Hc Hinc Hre) as [e' He'].
  exists e'. unfold Client.findAnswerInDocuments, Client.rankedChunks.
  destruct (Client.keywordsOf query) as [|k ks] eqn:E; [destruct Hk|].
  cbn [length Nat.eqb]. now rewrite He'.
Qed.

Lemma client_search_throws_on_bad_pattern_witness :
  exists e', Client.findAnswerInDocuments plainWordRegExp parenQuery [parenNotes]
             = Throw e'.
Proof.
  apply (client_search_throws_on_bad_pattern plainWordRegExp parenQuery
           [parenNotes] parenNotes (Client.content parenNotes) (lit "(income")
           SyntaxError).
  - now left.
  - now left.
  - now left.
  - reflexivity.
  - reflexivity.
Defined.

(** X20: every source that the client lists names a stored document, one
    with a paragraph that contains a keyword of the query. *)
Theorem client_sources_name_stored_documents regExpMatch query docs r s :
  Client.findAnswerInDocuments regExpMatch query docs = Ok r ->
  In s (Client.sources r) ->
  exists doc chunk,
    In doc docs /\ Client.name doc = document s
    /\ In chunk (splitBlankLines (Client.content doc))
    /\ (0 < Client.keywordHits (Client.keywordsOf query) chunk)%Z.
Proof.
  intros H Hs.
  apply findAnswerInDocuments_cases in H as [-> | [-> | (ranked & Hr & ->)]];
    try (now destruct Hs).
  cbn [Client.sources] in Hs. apply in_map_iff in Hs as (n & <- & Hn).
  apply setOf_In, in_map_iff in Hn as (c & <- & Hc). apply slice0_In in Hc.
  unfold Client.rankedChunks in Hr.
  destruct (Client.relevantChunksOf regExpMatch (Client.keywordsOf query) docs)
    as [cands|] eqn:E; cbn [bind] in Hr; [|discriminate].
  injection Hr as <-. apply (proj1 (sortBy_In _ _ _)) in Hc.
  apply (relevantChunksOf_In regExpMatch _ _ _ c E) in Hc
    as (doc & chunk & Hd & Hch & _ & Hsrc & _ & Hh).
  exists doc, chunk. cbn [document]. now repeat split.
Qed.

Lemma client_sources_name_stored_documents_witness :
  exists doc chunk,
    In doc [incomeNotes] /\ Client.name doc = lit "notes.txt"
    /\ In chunk (splitBlankLines (Client.content doc))
    /\ (0 < Client.keywordHits (Client.keywordsOf incomeQuery) chunk)%Z.
Proof.
  apply (client_sources_name_stored_documents plainWordRegExp incomeQuery
           [incomeNotes] _ (mkSource (lit "notes.txt") Client.referenced) eq_refl).
  now left.
Defined.

End ClientExtras.

(** ** More on the prompt and on the documents that an answer mentions *)
Module PromptFacts.
Import Js JsFacts ArrayFacts Server ServerFacts ModelPathFacts.

Lemma substringOf_app_r (s a b : str) : substringOf s b -> substringOf s (a ++ b).
Proof.
  intros (pre & post & ->). exists (a ++ pre), post. now rewrite <- app_assoc.
Qed.

Lemma substringOf_app_l (s a b : str) : substringOf s a -> substringOf s (a ++ b).
Proof.
  intros (pre & post & ->). exists pre, (post ++ b). now rewrite <- !app_assoc.
Qed.

Lemma documentContentOf_from documents acc :
  fold_left (fun acc doc =>
               (acc ++ (nl ++ lit "========== Document: " ++ name doc
                          ++ lit " ==========" ++ nl))
               ++ (content doc ++ nl))
            documents acc
  = acc ++ concat (map documentBlock documents).
Proof.
  revert acc; induction documents as [|doc docs IH]; intros acc; cbn [fold_left map concat].
  - now rewrite app_nil_r.
  - rewrite IH. unfold documentBlock. now rewrite <- !app_assoc.
Qed.

Lemma documentContentOf_blocks documents :
  documentContentOf documents = concat (map documentBlock documents).
Proof. unfold documentContentOf. now rewrite documentContentOf_from. Qed.

Lemma block_in_concat documents doc :
  In doc documents ->
  substringOf (documentBlock doc) (concat (map documentBlock documents)).
Proof.
  intros H. apply in_split in H as (l1 & l2 & ->).
  rewrite map_app, concat_app. cbn [map concat].
  apply substringOf_app_r, substringOf_prefix.
Qed.

Lemma prompt_holds_content documentContent :
  substringOf documentContent (systemPromptOf documentContent).
Proof.
  unfold systemPromptOf.
  repeat first [apply substringOf_prefix | apply substringOf_app_r].
Qed.

Lemma mapSet_keys_iff {A} k (v : A) m x :
  In x (map fst (mapSet k v m)) <-> In x (map fst m) \/ x = k.
Proof.
  split; [apply mapSet_keys_In|].
  induction m as [|[k' v'] m IH]; simpl.
  - intros [[] | ->]. now left.
  - destruct (eqStr k' k) eqn:E; simpl.
    + apply eqStr_true_iff in E. subst. intros [[H | H] | ->]; auto.
    + intros [[H | H] | ->]; auto.
Qed.

Lemma mentionedSources_keys modelAnswer documents k :
  In k (map fst (mentionedSources modelAnswer documents))
  <-> exists doc, In doc documents /\ name doc = k
                  /\ isMentioned modelAnswer doc = true.
Proof.
  unfold mentionedSources.
  assert (H : forall l acc,
             In k (map fst (fold_left
               (fun sourceSet doc =>
                  if isMentioned modelAnswer doc
                  then mapSet (name doc) (mkSourceEntry (name doc) doc true) sourceSet
                  else sourceSet) l acc))
             <-> In k (map fst acc)
                 \/ exists doc, In doc l /\ name doc = k
                                /\ isMentioned modelAnswer doc = true).
  { induction l as [|doc l IH]; intros acc; cbn [fold_left].
    - split; [now left | intros [H | (d & [] & _)]; exact H].
    - rewrite IH. destruct (isMentioned modelAnswer doc) eqn:E.
      + rewrite mapSet_keys_iff. split.
        * intros [[H | ->] | (d & Hd & Hn & Hm)]; [now left | |].
          -- right. exists doc. now repeat split; [left|..].
          -- right. exists d. now repeat split; [right|..].
        * intros [H | (d & [<- | Hd] & Hn & Hm)]; [now left; left | |].
          -- left. now right.
          -- right. now exists d.
      + split.
        * intros [H | (d & Hd & Hn & Hm)]; [now left|].
          right. exists d. now repeat split; [right|..].
        * intros [H | (d & [<- | Hd] & Hn & Hm)]; [now left | congruence |].
          right. now exists d. }
  rewrite (H documents []). simpl. tauto.
Qed.

End PromptFacts.

Module PromptExtras.
Import Js JsFacts ArrayFacts Examples.
Import ServerFacts ModelPathFacts PromptFacts.

(** X21: the document part of the system prompt is the concatenation, in
    storage order, of one block per stored document (a header line with the
    name, then the whole content); so the prompt sent to the model holds the
    name and the complete content of every stored document. *)
Theorem prompt_holds_every_document (documents : list Server.Document) :
  let prompt := Server.systemPromptOf (Server.documentContentOf documents) in
  Server.documentContentOf documents = concat (map Server.documentBlock documents)
  /\ substringOf (Server.documentContentOf documents) prompt
  /\ forall doc, In doc documents ->
       substringOf (Server.documentBlock doc) prompt
       /\ substringOf (Server.name doc) prompt
       /\ substringOf (Server.content doc) prompt.
Proof.
  intros prompt. split; [apply documentContentOf_blocks|].
  split; [apply prompt_holds_content|].
  intros doc Hdoc.
  assert (Hblock : substringOf (Server.documentBlock doc) prompt).
  { eapply substringOf_trans; [|apply prompt_holds_content].
    rewrite documentContentOf_blocks. now apply block_in_concat. }
  split; [exact Hblock|]. split.
  - eapply substringOf_trans; [|exact Hblock]. unfold Server.documentBlock.
    apply substringOf_app_l.
    do 2 apply substringOf_app_r. apply substringOf_prefix.
  - eapply substringOf_trans; [|exact Hblock]. unfold Server.documentBlock.
    apply substringOf_app_r, substringOf_prefix.
Qed.

Lemma prompt_holds_every_document_witness :
  substringOf (Server.content handbook)
              (Server.systemPromptOf (Server.documentContentOf [policy; handbook])).
Proof.
  apply (proj2 (proj2 (prompt_holds_every_document [policy; handbook])) handbook).
  right. now left.
Defined.

(** X22: the documents that count as mentioned in a model answer are
    exactly the stored documents whose lower-cased name, or lower-cased name
    up to its first dot, occurs in the lower-cased answer. A document whose
    name starts with a dot therefore counts as mentioned in every answer. *)
Theorem mentioned_documents modelAnswer (documents : list Server.Document) :
  (forall k,
     In k (map fst (Server.mentionedSources modelAnswer documents))
     <-> exists doc, In doc documents /\ Server.name doc = k
                     /\ (substringOf (toLowerCase (Server.name doc))
                                     (toLowerCase modelAnswer)
                         \/ substringOf
                              (toLowerCase (hd [] (splitOn Server.isDot (Server.name doc))))
                              (toLowerCase modelAnswer)))
  /\ (forall doc c rest,
        In doc documents -> Server.name doc = c :: rest -> Server.isDot c = true ->
        In (Server.name doc) (map fst (Server.mentionedSources modelAnswer documents))).
Proof.
  assert (Hm : forall doc,
             Server.isMentioned modelAnswer doc = true
             <-> substringOf (toLowerCase (Server.name doc)) (toLowerCase modelAnswer)
                 \/ substringOf
                      (toLowerCase (hd [] (splitOn Server.isDot (Server.name doc))))
                      (toLowerCase modelAnswer)).
  { intros doc. unfold Server.isMentioned.
    now rewrite orb_true_iff, !includes_true_iff. }
  split.
  - intros k. rewrite mentionedSources_keys. split;
      intros (doc & Hd & Hn & H); exists doc; repeat split; try assumption;
      now apply Hm.
  - intros doc c rest Hd Hn Hc. apply mentionedSources_keys.
    exists doc. repeat split; try assumption. apply Hm. right.
    rewrite Hn. cbn [splitOn]. rewrite Hc. cbn [hd toLowerCase map].
    apply substringOf_nil.
Qed.

Lemma mentioned_documents_witness :
  In (Server.name dotfile)
     (map fst (Server.mentionedSources (lit "Two weeks.") [policy; dotfile])).
Proof.
  apply (proj2 (mentioned_documents (lit "Two weeks.") [policy; dotfile])
           dotfile "."%char (lit "env")).
  - right. now left.
  - reflexivity.
  - reflexivity.
Defined.

End PromptExtras.
